(** * pico_ws2812: a shallow embedding of the WS2812 / SK6812 strip driver

    The development follows [src/ws2812.hpp] and [src/ws2812.cpp]:
    the colour value types, the pixel buffer and colour pipeline of
    [ws::Strip], the frame encoder [build_frame], and the transmission
    methods that talk to the Pico SDK (PIO state machine, DMA channel).
    The static helper [Strip::hsv] is not part of it.

    Conventions.
    - [uint8_t], [uint16_t], [uint32_t] and [int] values are integers in [Z];
      every narrowing conversion of the source is written out as a [mod].
    - [uint] pixel counts and indices are [nat].
    - [float] is IEEE-754 binary32, through [SpecFloat] at precision 24.
    - [std::vector] and C arrays are lists, read with [!!!] and written
      with [<[i:=x]>]. *)

From Stdlib Require Import ZArith Lia Bool List.
From Stdlib Require Import SpecFloat.
From stdpp Require Import base list gmap.

Local Open Scope Z_scope.

(* ===================================================================== *)
(** * Fixed-width integers *)
(* ===================================================================== *)

Definition to_u8 (x : Z) : Z := x mod 256.
Definition to_u16 (x : Z) : Z := x mod 65536.
Definition to_u32 (x : Z) : Z := x mod 4294967296.

(** [x] is a value of type [uint8_t]. *)
Definition is_u8 (x : Z) : Prop := 0 <= x < 256.

(** [x << n] on [uint32_t]. *)
Definition shl32 (x n : Z) : Z := to_u32 (Z.shiftl x n).

(* ===================================================================== *)
(** * binary32 arithmetic used by the gamma curve *)
(* ===================================================================== *)

Module F32.

Definition prec : Z := 24.
Definition emax : Z := 128.

Definition float := spec_float.

Definition mul : float -> float -> float := SFmul prec emax.
Definition div : float -> float -> float := SFdiv prec emax.

(** Conversion [int -> float]. *)
Definition of_int (z : Z) : float := binary_normalize prec emax z 0 false.

(** The literals [255.0f] and [2.2f] (the latter is [0x400CCCCD]). *)
Definition c255 : float := of_int 255.
Definition c2_2 : float := S754_finite false 9227469 (-22).

(** [std::round] on [float]: to the nearest integer, halfway cases away
    from zero; zeros, infinities and NaN are returned as they are. *)
Definition round (x : float) : float :=
  match x with
  | S754_finite s m e =>
      if 0 <=? e then x
      else
        let d := Z.shiftl 1 (- e) in
        let q := Z.pos m / d in
        let n := if d <=? 2 * (Z.pos m mod d) then q + 1 else q in
        binary_normalize prec emax (cond_Zopp s n) 0 s
  | _ => x
  end.

(** The conversion [(uint8_t) x]: the fraction is discarded.  C++ leaves
    the conversion undefined for NaN, infinities and values outside
    [0, 255]; the model returns [0] for the first two and reduces the
    integer part modulo 256 for the last. *)
Definition to_uint8 (x : float) : Z :=
  match x with
  | S754_finite s m e =>
      to_u8 (cond_Zopp s (if 0 <=? e then Z.shiftl (Z.pos m) e
                          else Z.shiftr (Z.pos m) (- e)))
  | _ => 0
  end.

End F32.

(* ===================================================================== *)
(** * Colour value types ([ws2812.hpp]) *)
(* ===================================================================== *)

(** [struct RGB { uint8_t r, g, b; }]. *)
Module RGB.
Record t : Type := mk { r : Z; g : Z; b : Z }.
Definition wf (c : t) : Prop := is_u8 (r c) /\ is_u8 (g c) /\ is_u8 (b c).
End RGB.

(** [struct RGBW { uint8_t r, g, b, w; }]. *)
Module RGBW.
Record t : Type := mk { r : Z; g : Z; b : Z; w : Z }.
Definition wf (c : t) : Prop :=
  is_u8 (r c) /\ is_u8 (g c) /\ is_u8 (b c) /\ is_u8 (w c).
End RGBW.

#[global] Instance RGBW_inhabited : Inhabited RGBW.t :=
  populate (RGBW.mk 0 0 0 0).

#[global] Instance RGBW_eq_dec : EqDecision RGBW.t.
Proof. solve_decision. Defined.

(** The two PIO blocks of the RP2040. *)
Inductive PIO : Type := pio0 | pio1.

#[global] Instance PIO_eq_dec : EqDecision PIO.
Proof. solve_decision. Defined.

(* ===================================================================== *)
(** * The driver object *)
(* ===================================================================== *)

(** The data members of [class Strip], in declaration order. *)
Record Strip : Type := mkStrip {
  _pin : Z;
  _count : nat;
  _rgbw : bool;
  _freq : F32.float;
  _pio : PIO;
  _sm : Z;
  _dma_ch : Z;
  _pio_offset : Z;
  _buf : list RGBW.t;
  _frame_tx : list Z;
  _brightness : Z;
  _gamma_on : bool;
  _gam : list Z;
  _tx_in_flight : bool
}.

Definition set_buf (s : Strip) (v : list RGBW.t) : Strip :=
  mkStrip (_pin s) (_count s) (_rgbw s) (_freq s) (_pio s) (_sm s) (_dma_ch s)
          (_pio_offset s) v (_frame_tx s) (_brightness s) (_gamma_on s)
          (_gam s) (_tx_in_flight s).

Definition set_brightness (s : Strip) (v : Z) : Strip :=
  mkStrip (_pin s) (_count s) (_rgbw s) (_freq s) (_pio s) (_sm s) (_dma_ch s)
          (_pio_offset s) (_buf s) (_frame_tx s) v (_gamma_on s)
          (_gam s) (_tx_in_flight s).

Definition set_gamma_on (s : Strip) (v : bool) : Strip :=
  mkStrip (_pin s) (_count s) (_rgbw s) (_freq s) (_pio s) (_sm s) (_dma_ch s)
          (_pio_offset s) (_buf s) (_frame_tx s) (_brightness s) v
          (_gam s) (_tx_in_flight s).

Definition set_gam (s : Strip) (v : list Z) : Strip :=
  mkStrip (_pin s) (_count s) (_rgbw s) (_freq s) (_pio s) (_sm s) (_dma_ch s)
          (_pio_offset s) (_buf s) (_frame_tx s) (_brightness s) (_gamma_on s)
          v (_tx_in_flight s).

Definition set_sm (s : Strip) (v : Z) : Strip :=
  mkStrip (_pin s) (_count s) (_rgbw s) (_freq s) (_pio s) v (_dma_ch s)
          (_pio_offset s) (_buf s) (_frame_tx s) (_brightness s) (_gamma_on s)
          (_gam s) (_tx_in_flight s).

Definition set_dma_ch (s : Strip) (v : Z) : Strip :=
  mkStrip (_pin s) (_count s) (_rgbw s) (_freq s) (_pio s) (_sm s) v
          (_pio_offset s) (_buf s) (_frame_tx s) (_brightness s) (_gamma_on s)
          (_gam s) (_tx_in_flight s).

Definition set_pio_offset (s : Strip) (v : Z) : Strip :=
  mkStrip (_pin s) (_count s) (_rgbw s) (_freq s) (_pio s) (_sm s) (_dma_ch s)
          v (_buf s) (_frame_tx s) (_brightness s) (_gamma_on s)
          (_gam s) (_tx_in_flight s).

(** [for (int i=0;i<256;++i) _gam[i] = f(i);] *)
Definition fill_gam (f : Z -> Z) (gam : list Z) : list Z :=
  foldl (fun t i => <[i := f (Z.of_nat i)]> t) gam (seq 0 256).

(** The constructor.  [_buf(count)] holds [count] value-initialised
    pixels, [_frame_tx] is empty, and the gamma table starts as the
    identity. *)
Definition Strip_new (pin : Z) (count : nat) (rgbw : bool) (freq : F32.float)
    (pio : PIO) (sm : Z) : Strip :=
  mkStrip pin count rgbw freq pio sm (-1) 0
          (replicate count (RGBW.mk 0 0 0 0)) []
          255 false
          (fill_gam (fun i => to_u8 i) (replicate 256 0))
          false.

(* ===================================================================== *)
(** * Pixel buffer ([setAll], [setPixel], [clear]) *)
(* ===================================================================== *)

(** [std::fill(_buf.begin(), _buf.end(), c)]. *)
Definition setAll_RGBW (s : Strip) (c : RGBW.t) : Strip :=
  set_buf s (replicate (length (_buf s)) c).

Definition setAll_RGB (s : Strip) (c : RGB.t) : Strip :=
  setAll_RGBW s (RGBW.mk (RGB.r c) (RGB.g c) (RGB.b c) 0).

Definition clear (s : Strip) : Strip := setAll_RGBW s (RGBW.mk 0 0 0 0).

Definition setPixel_RGB (s : Strip) (i : nat) (c : RGB.t) : Strip :=
  if (_count s <=? i)%nat then s
  else set_buf s (<[i := RGBW.mk (RGB.r c) (RGB.g c) (RGB.b c) 0]> (_buf s)).

Definition setPixel_rgb (s : Strip) (i : nat) (r g b : Z) : Strip :=
  if (_count s <=? i)%nat then s
  else set_buf s (<[i := RGBW.mk r g b 0]> (_buf s)).

Definition setPixel_RGBW (s : Strip) (i : nat) (c : RGBW.t) : Strip :=
  if (_count s <=? i)%nat then s
  else set_buf s (<[i := c]> (_buf s)).

Definition size (s : Strip) : nat := _count s.

(* ===================================================================== *)
(** * Colour pipeline ([setBrightness], [enableGamma], [scale_u8]) *)
(* ===================================================================== *)

Definition setBrightness (s : Strip) (b : Z) : Strip := set_brightness s b.

Section Gamma.

(** [std::pow] on [float] comes from the C library. *)
Variable powf : F32.float -> F32.float -> F32.float.

(** The body of the table loop:
    [x = i/255.0f; y = (uint8_t)std::round(std::pow(x, 2.2f) * 255.0f)]. *)
Definition gamma_entry (i : Z) : Z :=
  let x := F32.div (F32.of_int i) F32.c255 in
  F32.to_uint8 (F32.round (F32.mul (powf x F32.c2_2) F32.c255)).

Definition enableGamma (s : Strip) (on : bool) : Strip :=
  let s := set_gamma_on s on in
  if on then set_gam s (fill_gam gamma_entry (_gam s))
  else set_gam s (fill_gam (fun i => to_u8 i) (_gam s)).

End Gamma.

(** [(uint8_t)((uint16_t(v) * (uint16_t)b + 127) / 255)]; the operands are
    promoted to [int], whose division truncates. *)
Definition scale_u8 (v b : Z) : Z :=
  to_u8 ((to_u16 v * to_u16 b + 127) ÷ 255).

(* ===================================================================== *)
(** * Frame encoder ([build_frame]) *)
(* ===================================================================== *)

(** [scale_u8(_gamma_on ? _gam[c] : c, _brightness)]. *)
Definition channel (s : Strip) (c : Z) : Z :=
  scale_u8 (if _gamma_on s then _gam s !!! Z.to_nat c else c) (_brightness s).

(** The body of the SK6812 loop. *)
Definition grbw_word (s : Strip) (p : RGBW.t) : Z :=
  let r := channel s (RGBW.r p) in
  let g := channel s (RGBW.g p) in
  let b := channel s (RGBW.b p) in
  let w := channel s (RGBW.w p) in
  Z.lor (Z.lor (Z.lor (shl32 (to_u32 g) 24) (shl32 (to_u32 r) 16))
               (shl32 (to_u32 b) 8)) w.

(** The body of the WS2812 loop. *)
Definition grb_word (s : Strip) (p : RGBW.t) : Z :=
  let r := channel s (RGBW.r p) in
  let g := channel s (RGBW.g p) in
  let b := channel s (RGBW.b p) in
  let grb := Z.lor (Z.lor (shl32 (to_u32 g) 16) (shl32 (to_u32 r) 8)) b in
  shl32 grb 8.

(** [build_frame(out)]: [out] is resized to [_count] and then written
    slot by slot. *)
Definition build_frame (s : Strip) (out : list Z) : list Z :=
  let out := resize (_count s) 0 out in
  if _rgbw s then
    foldl (fun o i => <[i := grbw_word s (_buf s !!! i)]> o) out
          (seq 0 (_count s))
  else
    foldl (fun o i => <[i := grb_word s (_buf s !!! i)]> o) out
          (seq 0 (_count s)).

(* ===================================================================== *)
(** * The platform: Pico SDK calls and the build configuration *)
(* ===================================================================== *)

(** Addresses the driver hands to the SDK: [nullptr], the TX FIFO register
    [&pio->txf[sm]], and the storage of a function-local [std::vector]. *)
Inductive addr : Type :=
  | Nullptr
  | Txf (p : PIO) (sm : Z)
  | Vec (a : nat).

Inductive dma_size : Type := DMA_SIZE_8 | DMA_SIZE_16 | DMA_SIZE_32.

(** [pio_get_dreq(pio, sm, is_tx)], or the unpaced default. *)
Inductive dreq : Type :=
  | DREQ_FORCE
  | DREQ_PIO (p : PIO) (sm : Z) (is_tx : bool).

Record dma_channel_config : Type := mk_config {
  c_dreq : dreq;
  c_data_size : dma_size;
  c_read_increment : bool;
  c_write_increment : bool
}.

(** [dma_channel_get_default_config]: unpaced, 32-bit, read increment on,
    write increment off. *)
Definition dma_channel_get_default_config (ch : Z) : dma_channel_config :=
  mk_config DREQ_FORCE DMA_SIZE_32 true false.

Definition channel_config_set_dreq (c : dma_channel_config) (d : dreq) :=
  mk_config d (c_data_size c) (c_read_increment c) (c_write_increment c).
Definition channel_config_set_transfer_data_size (c : dma_channel_config)
    (sz : dma_size) :=
  mk_config (c_dreq c) sz (c_read_increment c) (c_write_increment c).
Definition channel_config_set_read_increment (c : dma_channel_config)
    (v : bool) :=
  mk_config (c_dreq c) (c_data_size c) v (c_write_increment c).
Definition channel_config_set_write_increment (c : dma_channel_config)
    (v : bool) :=
  mk_config (c_dreq c) (c_data_size c) (c_read_increment c) v.

(** SDK functions whose [int] result the driver reads.  They may end the
    program with a fatal [panic]. *)
Inductive sdk_query : Type :=
  | pio_add_program (p : PIO)
  | pio_claim_unused_sm (p : PIO) (required : bool)
  | dma_claim_unused_channel (required : bool).

(** SDK functions called for their effect. *)
Inductive sdk_cmd : Type :=
  | ws2812_program_init (p : PIO) (sm offset pin : Z) (freq : F32.float)
      (rgbw : bool)
  | dma_channel_configure (ch : Z) (c : dma_channel_config)
      (write_addr read_addr : addr) (transfer_count : Z) (trigger : bool)
  | dma_channel_set_read_addr (ch : Z) (a : addr) (trigger : bool)
  | dma_channel_set_trans_count (ch : Z) (n : Z) (trigger : bool)
  | dma_channel_abort (ch : Z)
  | dma_channel_unclaim (ch : Z)
  | pio_sm_set_enabled (p : PIO) (sm : Z) (enabled : bool)
  | pio_sm_unclaim (p : PIO) (sm : Z)
  | pio_sm_put_blocking (p : PIO) (sm : Z) (data : Z)
  | sleep_us (us : Z).

Inductive sdk_call : Type :=
  | Query (q : sdk_query)
  | Cmd (c : sdk_cmd).

(** A call that puts pixel data on the wire: a word pushed into the TX
    FIFO, or a DMA call with its trigger flag set. *)
Definition transmits (c : sdk_call) : bool :=
  match c with
  | Cmd (pio_sm_put_blocking _ _ _) => true
  | Cmd (dma_channel_configure _ _ _ _ _ trigger) => trigger
  | Cmd (dma_channel_set_read_addr _ _ trigger) => trigger
  | Cmd (dma_channel_set_trans_count _ _ trigger) => trigger
  | _ => false
  end.

Inductive sdk_result (hw : Type) : Type :=
  | Returns (v : Z) (h : hw)
  | Panics.
Arguments Returns {hw} v h.
Arguments Panics {hw}.

(** What the driver is compiled against: the [WS2812_USE_DMA] macro and the
    behaviour of the SDK on a hardware state [hw]. *)
Class Platform (hw : Type) : Type := {
  WS2812_USE_DMA : bool;
  sdk_query_exec : sdk_query -> hw -> sdk_result hw;
  sdk_cmd_exec : sdk_cmd -> hw -> hw;
  dma_channel_is_busy : Z -> hw -> bool;
  (** the hardware keeps running while the CPU executes one iteration of a
      polling loop *)
  tight_loop_contents : hw -> hw
}.

(** Properties of the platform that individual results rely on. *)

(** A required claim never returns a negative index: without a free state
    machine [pio_claim_unused_sm(pio, true)] panics. *)
Definition required_claim_never_negative {hw} (P : Platform hw) : Prop :=
  forall p h v h',
    sdk_query_exec (pio_claim_unused_sm p true) h = Returns v h' -> 0 <= v.

(** A triggered transfer has a fixed word count and ends. *)
Definition transfers_end {hw} (P : Platform hw) : Prop :=
  forall ch h,
    exists n, dma_channel_is_busy ch (Nat.iter n tight_loop_contents h) = false.

(** An idle channel stays idle while the CPU sleeps. *)
Definition idle_stays_idle {hw} (P : Platform hw) : Prop :=
  forall ch us h,
    dma_channel_is_busy ch h = false ->
    dma_channel_is_busy ch (sdk_cmd_exec (sleep_us us) h) = false.

(* ===================================================================== *)
(** * Program state and the method monad *)
(* ===================================================================== *)

(** The state a method runs in: the object, the two file-scope statics of
    [ws2812.cpp], the storage of live local vectors, the hardware, and
    the trace of SDK calls made so far. *)
Record World (hw : Type) : Type := mkWorld {
  strip : Strip;
  s_offset_pio0 : Z;
  s_offset_pio1 : Z;
  heap : gmap nat (list Z);
  hardware : hw;
  trace : list sdk_call
}.
Arguments mkWorld {hw}.
Arguments strip {hw}.
Arguments s_offset_pio0 {hw}.
Arguments s_offset_pio1 {hw}.
Arguments heap {hw}.
Arguments hardware {hw}.
Arguments trace {hw}.

Inductive res (A : Type) : Type :=
  | Ret (a : A)
  | Panic        (* the SDK called [panic] *)
  | Undefined    (* a read through a dangling or null pointer *)
  | OutOfFuel.   (* a polling loop used up the iterations it was given *)
Arguments Ret {A} a.
Arguments Panic {A}.
Arguments Undefined {A}.
Arguments OutOfFuel {A}.

Definition M (hw A : Type) : Type := World hw -> res (A * World hw).

Definition ret {hw A} (a : A) : M hw A := fun w => Ret (a, w).

Definition bind {hw A B} (m : M hw A) (k : A -> M hw B) : M hw B :=
  fun w =>
    match m w with
    | Ret (a, w') => k a w'
    | Panic => Panic
    | Undefined => Undefined
    | OutOfFuel => OutOfFuel
    end.

Declare Scope method_scope.
Delimit Scope method_scope with method.
Notation "'let*' x ':=' m 'in' k" := (bind m (fun x => k))
  (at level 10, x name, m at level 100, k at level 200) : method_scope.
Notation "m ;;; k" := (bind m (fun _ => k))
  (at level 100, k at level 200, right associativity) : method_scope.

Section Methods.

Context {hw : Type} {P : Platform hw}.
Local Open Scope method_scope.

Definition this : M hw Strip := fun w => Ret (strip w, w).

Definition update (f : Strip -> Strip) : M hw unit :=
  fun w => Ret (tt, mkWorld (f (strip w)) (s_offset_pio0 w) (s_offset_pio1 w)
                            (heap w) (hardware w) (trace w)).

Definition get_s_offset_pio0 : M hw Z := fun w => Ret (s_offset_pio0 w, w).
Definition get_s_offset_pio1 : M hw Z := fun w => Ret (s_offset_pio1 w, w).

Definition set_s_offset_pio0 (v : Z) : M hw unit :=
  fun w => Ret (tt, mkWorld (strip w) v (s_offset_pio1 w)
                            (heap w) (hardware w) (trace w)).

Definition set_s_offset_pio1 (v : Z) : M hw unit :=
  fun w => Ret (tt, mkWorld (strip w) (s_offset_pio0 w) v
                            (heap w) (hardware w) (trace w)).

Definition set_heap (w : World hw) (m : gmap nat (list Z)) : World hw :=
  mkWorld (strip w) (s_offset_pio0 w) (s_offset_pio1 w) m
          (hardware w) (trace w).

Definition set_hardware (w : World hw) (h : hw) : World hw :=
  mkWorld (strip w) (s_offset_pio0 w) (s_offset_pio1 w) (heap w)
          h (trace w).

Definition record (w : World hw) (c : sdk_call) : World hw :=
  mkWorld (strip w) (s_offset_pio0 w) (s_offset_pio1 w) (heap w)
          (hardware w) (trace w ++ [c]).

(** An SDK call with an [int] result. *)
Definition query (q : sdk_query) : M hw Z :=
  fun w =>
    match sdk_query_exec q (hardware w) with
    | Returns v h => Ret (v, set_hardware (record w (Query q)) h)
    | Panics => Panic
    end.

(** An SDK call without a result. *)
Definition cmd (c : sdk_cmd) : M hw unit :=
  fun w => Ret (tt, set_hardware (record w (Cmd c))
                                 (sdk_cmd_exec c (hardware w))).

(** ** Local vectors *)

(** [std::vector<uint32_t> frame;] *)
Definition vector_new : M hw nat :=
  fun w => let a := fresh (dom (heap w)) in
           Ret (a, set_heap w (<[a := []]> (heap w))).

(** A method call that rewrites the vector through a reference. *)
Definition vector_modify (a : nat) (f : list Z -> list Z) : M hw unit :=
  fun w => match heap w !! a with
           | Some l => Ret (tt, set_heap w (<[a := f l]> (heap w)))
           | None => Undefined
           end.

Definition vector_get (a : nat) : M hw (list Z) :=
  fun w => match heap w !! a with
           | Some l => Ret (l, w)
           | None => Undefined
           end.

(** The destructor, run when the vector goes out of scope. *)
Definition vector_delete (a : nat) : M hw unit :=
  fun w => Ret (tt, set_heap w (delete a (heap w))).

(** [data[i]] for a [const uint32_t* data]. *)
Definition load (data : addr) (i : nat) : M hw Z :=
  fun w => match data with
           | Vec a => match heap w !! a with
                      | Some l => match l !! i with
                                  | Some x => Ret (x, w)
                                  | None => Undefined
                                  end
                      | None => Undefined
                      end
           | _ => Undefined
           end.

(** [for (...) body(x)] over the elements of [l], in order. *)
Fixpoint for_each {A} (l : list A) (body : A -> M hw unit) : M hw unit :=
  match l with
  | [] => ret tt
  | x :: l' => body x ;;; for_each l' body
  end.

(** [while (dma_channel_is_busy(ch)) { tight_loop_contents(); }] *)
Fixpoint spin (fuel : nat) (ch : Z) : M hw unit :=
  fun w =>
    match fuel with
    | O => OutOfFuel
    | S fuel' =>
        if dma_channel_is_busy ch (hardware w)
        then spin fuel' ch (set_hardware w (tight_loop_contents (hardware w)))
        else Ret (tt, w)
    end.

(** ** [begin] and [end] *)

Definition begin : M hw bool :=
  let* s := this in
  (if decide (_pio s = pio0)
   then
     let* off := get_s_offset_pio0 in
     (if off <? 0
      then let* r := query (pio_add_program (_pio s)) in set_s_offset_pio0 r
      else ret tt) ;;;
     let* off := get_s_offset_pio0 in
     update (fun s => set_pio_offset s (to_u32 off))
   else
     let* off := get_s_offset_pio1 in
     (if off <? 0
      then let* r := query (pio_add_program (_pio s)) in set_s_offset_pio1 r
      else ret tt) ;;;
     let* off := get_s_offset_pio1 in
     update (fun s => set_pio_offset s (to_u32 off))) ;;;
  let* claimed :=
    (if _sm s <? 0
     then let* sm := query (pio_claim_unused_sm (_pio s) true) in
          update (fun s => set_sm s sm) ;;;
          ret (negb (sm <? 0))
     else ret true) in
  if negb claimed then ret false
  else
    let* s := this in
    cmd (ws2812_program_init (_pio s) (to_u32 (_sm s)) (_pio_offset s)
                             (_pin s) (_freq s) (_rgbw s)) ;;;
    (if WS2812_USE_DMA
     then
       let* ch := query (dma_claim_unused_channel false) in
       update (fun s => set_dma_ch s ch) ;;;
       if 0 <=? ch
       then
         let c := dma_channel_get_default_config ch in
         let c := channel_config_set_dreq c
                    (DREQ_PIO (_pio s) (to_u32 (_sm s)) true) in
         let c := channel_config_set_transfer_data_size c DMA_SIZE_32 in
         let c := channel_config_set_read_increment c true in
         let c := channel_config_set_write_increment c false in
         cmd (dma_channel_configure ch c (Txf (_pio s) (_sm s)) Nullptr 0
                                    false)
       else ret tt
     else ret tt) ;;;
    update clear ;;;
    ret true.

Definition stop_dma : M hw unit :=
  let* s := this in
  if 0 <=? _dma_ch s then cmd (dma_channel_abort (_dma_ch s)) else ret tt.

Definition end_ : M hw unit :=
  (if WS2812_USE_DMA
   then
     stop_dma ;;;
     let* s := this in
     if 0 <=? _dma_ch s
     then cmd (dma_channel_unclaim (_dma_ch s)) ;;;
          update (fun s => set_dma_ch s (-1))
     else ret tt
   else ret tt) ;;;
  let* s := this in
  if 0 <=? _sm s
  then cmd (pio_sm_set_enabled (_pio s) (to_u32 (_sm s)) false) ;;;
       cmd (pio_sm_unclaim (_pio s) (to_u32 (_sm s))) ;;;
       update (fun s => set_sm s (-1))
  else ret tt.

(** ** Transmission *)

Definition start_dma (data : addr) (words : nat) : M hw unit :=
  let* s := this in
  if _dma_ch s <? 0
  then
    for_each (seq 0 words)
      (fun i => let* x := load data i in
                cmd (pio_sm_put_blocking (_pio s) (to_u32 (_sm s)) x))
  else
    cmd (dma_channel_set_read_addr (_dma_ch s) data false) ;;;
    cmd (dma_channel_set_trans_count (_dma_ch s)
           (to_u32 (Z.of_nat words)) true).

Definition busy (w : World hw) : bool :=
  if WS2812_USE_DMA && (0 <=? _dma_ch (strip w))
  then dma_channel_is_busy (_dma_ch (strip w)) (hardware w)
  else false.

Definition wait (fuel : nat) : M hw unit :=
  let* s := this in
  (if WS2812_USE_DMA && (0 <=? _dma_ch s)
   then spin fuel (_dma_ch s) else ret tt) ;;;
  cmd (sleep_us 80).

Definition showAsync : M hw unit :=
  let* s := this in
  let* frame := vector_new in
  vector_modify frame (build_frame s) ;;;
  (if WS2812_USE_DMA
   then let* l := vector_get frame in
        start_dma (Vec frame) (length l)
   else let* l := vector_get frame in
        for_each l (fun x =>
          cmd (pio_sm_put_blocking (_pio s) (to_u32 (_sm s)) x))) ;;;
  vector_delete frame.

Definition show (fuel : nat) : M hw unit :=
  let* s := this in
  let* frame := vector_new in
  vector_modify frame (build_frame s) ;;;
  (if WS2812_USE_DMA
   then let* l := vector_get frame in
        start_dma (Vec frame) (length l) ;;;
        if 0 <=? _dma_ch s then spin fuel (_dma_ch s) else ret tt
   else let* l := vector_get frame in
        for_each l (fun x =>
          cmd (pio_sm_put_blocking (_pio s) (to_u32 (_sm s)) x))) ;;;
  cmd (sleep_us 80) ;;;
  vector_delete frame.

End Methods.

(* ===================================================================== *)
(** * A reference platform *)
(* ===================================================================== *)

(** A small executable RP2040: whether the PIO instruction memory still
    has room for the timing program, the unclaimed state machines and DMA
    channels, and the number of words the running transfer still has to
    move.  It is used to run the methods on concrete inputs. *)
Module Sim.

Record hw : Type := mk {
  program_room : bool;
  free_sm : list nat;
  free_dma : list nat;
  remaining : nat
}.

Definition set_remaining (h : hw) (n : nat) : hw :=
  mk (program_room h) (free_sm h) (free_dma h) n.

(** [pio_add_program] answers with the load offset, or a negative error
    code when the program does not fit.  The two claim functions hand
    out the first free index; without one they panic when [required] is
    set and answer [-1] otherwise. *)
Definition query_exec (q : sdk_query) (h : hw) : sdk_result hw :=
  match q with
  | pio_add_program _ =>
      if program_room h then Returns 0 h else Returns (-1) h
  | pio_claim_unused_sm _ required =>
      match free_sm h with
      | x :: rest => Returns (Z.of_nat x)
                       (mk (program_room h) rest (free_dma h) (remaining h))
      | [] => if required then Panics else Returns (-1) h
      end
  | dma_claim_unused_channel required =>
      match free_dma h with
      | x :: rest => Returns (Z.of_nat x)
                       (mk (program_room h) (free_sm h) rest (remaining h))
      | [] => if required then Panics else Returns (-1) h
      end
  end.

(** A triggered transfer count starts a transfer of that many words; an
    abort ends it; while the CPU sleeps the transfer moves on. *)
Definition cmd_exec (c : sdk_cmd) (h : hw) : hw :=
  match c with
  | dma_channel_set_trans_count _ n true => set_remaining h (Z.to_nat n)
  | dma_channel_configure _ _ _ _ n true => set_remaining h (Z.to_nat n)
  | dma_channel_abort _ => set_remaining h 0
  | sleep_us us => set_remaining h (remaining h - Z.to_nat us)
  | _ => h
  end.

Definition is_busy (ch : Z) (h : hw) : bool := negb (remaining h =? 0)%nat.

(** One word leaves per polling iteration. *)
Definition tick (h : hw) : hw := set_remaining h (Nat.pred (remaining h)).

#[global] Instance platform : Platform hw := {|
  WS2812_USE_DMA := true;
  sdk_query_exec := query_exec;
  sdk_cmd_exec := cmd_exec;
  dma_channel_is_busy := is_busy;
  tight_loop_contents := tick
|}.

(** The state right after construction of [s]. *)
Definition boot (s : Strip) (h : hw) : World hw :=
  mkWorld s (-1) (-1) ∅ h [].

(** A two-pixel WS2812 strip on GPIO 16 with a preset state machine. *)
Definition strip2 : Strip :=
  Strip_new 16 2 false (F32.of_int 800000) pio0 0.

(** A board with one free state machine and one free DMA channel. *)
Definition board : hw := mk true [0%nat] [0%nat] 0.

(** A board whose PIO instruction memory is full. *)
Definition board_full : hw := mk false [0%nat] [0%nat] 0.

(** A board with no free state machine. *)
Definition board_no_sm : hw := mk true [] [0%nat] 0.

(** A board with no free DMA channel. *)
Definition board_no_dma : hw := mk true [0%nat] [] 0.

(** A two-pixel strip that asks [begin] to claim a state machine. *)
Definition strip_auto : Strip :=
  Strip_new 16 2 false (F32.of_int 800000) pio0 (-1).

(** A state as [begin] leaves it on [board], with every pixel set to red
    and the trace started afresh. *)
Definition ready : World hw :=
  mkWorld (setAll_RGB (set_dma_ch strip2 0) (RGB.mk 255 0 0)) 0 (-1) ∅
          (mk true [0%nat] [] 0) [].

(** The same for three pixels and without a DMA channel. *)
Definition ready_no_dma : World hw :=
  mkWorld (setAll_RGB (Strip_new 16 3 false (F32.of_int 800000) pio0 0)
                      (RGB.mk 255 0 0))
          0 (-1) ∅ (mk true [0%nat] [] 0) [].

(** [ready] with a transfer of two words under way. *)
Definition in_flight : World hw :=
  mkWorld (strip ready) 0 (-1) ∅ (mk true [0%nat] [] 2) [].

(** [ready] after [setBrightness(40)] and [setPixel(1, 1, 2, 3)]. *)
Definition painted : World hw :=
  mkWorld (setPixel_rgb (setBrightness (strip ready) 40) 1 1 2 3) 0 (-1) ∅
          (mk true [0%nat] [] 0) [].

(** A stand-in for [std::pow] on the example inputs: it squares. *)
Definition powf (x y : F32.float) : F32.float := F32.mul x x.

End Sim.

(* ===================================================================== *)
(** * What the specification says a transmission word is *)
(* ===================================================================== *)

(** 24-bit variant: G in bits 23:16, R in 15:8, B in 7:0, then shifted
    left by 8. *)
Definition spec_grb_word (p : RGBW.t) : Z :=
  Z.shiftl (Z.lor (Z.lor (Z.shiftl (RGBW.g p) 16) (Z.shiftl (RGBW.r p) 8))
                  (RGBW.b p)) 8.

(** 32-bit variant: G:31-24, R:23-16, B:15-8, W:7-0. *)
Definition spec_grbw_word (p : RGBW.t) : Z :=
  Z.lor (Z.lor (Z.lor (Z.shiftl (RGBW.g p) 24) (Z.shiftl (RGBW.r p) 16))
               (Z.shiftl (RGBW.b p) 8)) (RGBW.w p).

Definition spec_word (rgbw : bool) (p : RGBW.t) : Z :=
  if rgbw then spec_grbw_word p else spec_grb_word p.

(** The identity table and the table of the gamma curve. *)
Definition identity_table : list Z := (fun i => to_u8 (Z.of_nat i)) <$> seq 0 256.
Definition gamma_table (powf : F32.float -> F32.float -> F32.float) : list Z :=
  (fun i => gamma_entry powf (Z.of_nat i)) <$> seq 0 256.

(** What the constructor establishes and every method keeps: the buffer
    has [_count] slots of 8-bit channels, and the table is the one
    [_gamma_on] announces. *)
Record Strip_inv (powf : F32.float -> F32.float -> F32.float) (s : Strip)
    : Prop := {
  inv_length : length (_buf s) = _count s;
  inv_pixels : Forall RGBW.wf (_buf s);
  inv_gam : _gam s = if _gamma_on s then gamma_table powf else identity_table
}.

Definition is_zero (x : F32.float) : Prop :=
  match x with S754_zero _ => True | _ => False end.

(** A method respects a relation on states when every run that returns
    relates the state before to the state after. *)
Definition respects {hw A} (R : World hw -> World hw -> Prop) (m : M hw A)
    : Prop :=
  forall w a w', m w = Ret (a, w') -> R w w'.

(** The object is untouched. *)
Definition same_strip {hw} (w w' : World hw) : Prop := strip w' = strip w.

(** Nothing was put on the wire and the buffer kept its length. *)
Definition quiet {hw} (w w' : World hw) : Prop :=
  length (_buf (strip w')) = length (_buf (strip w))
  /\ exists l, trace w' = trace w ++ l
               /\ Forall (fun c => transmits c = false) l.

(** The pixel as it goes on the wire: every channel after the colour
    pipeline. *)
Definition on_wire (s : Strip) (p : RGBW.t) : RGBW.t :=
  RGBW.mk (channel s (RGBW.r p)) (channel s (RGBW.g p))
          (channel s (RGBW.b p)) (channel s (RGBW.w p)).

(** Reading the channels back out of a transmission word, most significant
    byte first: G, R, B, W for the 32-bit variant and G, R, B for the
    24-bit one, whose low byte carries nothing. *)
Definition decode_grbw (x : Z) : RGBW.t :=
  RGBW.mk (Z.land (Z.shiftr x 16) 255) (Z.land (Z.shiftr x 24) 255)
          (Z.land (Z.shiftr x 8) 255) (Z.land x 255).

Definition decode_grb (x : Z) : RGBW.t :=
  RGBW.mk (Z.land (Z.shiftr x 16) 255) (Z.land (Z.shiftr x 24) 255)
          (Z.land (Z.shiftr x 8) 255) 0.

(** Two pixels with the same red, green and blue. *)
Definition same_rgb (p q : RGBW.t) : Prop :=
  RGBW.r p = RGBW.r q /\ RGBW.g p = RGBW.g q /\ RGBW.b p = RGBW.b q.

(** The file-scope static that belongs to a PIO block. *)
Definition s_offset {hw} (p : PIO) (w : World hw) : Z :=
  match p with pio0 => s_offset_pio0 w | pio1 => s_offset_pio1 w end.

Definition is_add_program (c : sdk_call) : bool :=
  match c with Query (pio_add_program _) => true | _ => false end.

(** The calls a method made: the part of the trace it appended. *)
Definition appended {hw} (w w' : World hw) (l : list sdk_call) : Prop :=
  trace w' = trace w ++ l.

(** The invariant of the object carries over. *)
Definition keeps_inv {hw} (powf : F32.float -> F32.float -> F32.float)
    (w w' : World hw) : Prop :=
  Strip_inv powf (strip w) -> Strip_inv powf (strip w').

(** The fields [begin] and [end] never write. *)
Definition same_settings (s s' : Strip) : Prop :=
  _pin s' = _pin s /\ _count s' = _count s /\ _rgbw s' = _rgbw s
  /\ _freq s' = _freq s /\ _pio s' = _pio s
  /\ _frame_tx s' = _frame_tx s /\ _brightness s' = _brightness s
  /\ _gamma_on s' = _gamma_on s /\ _gam s' = _gam s
  /\ _tx_in_flight s' = _tx_in_flight s.

(** The statics and [_pio_offset] are untouched and the program was not
    loaded again. *)
Definition no_load {hw} (w w' : World hw) : Prop :=
  s_offset_pio0 w' = s_offset_pio0 w
  /\ s_offset_pio1 w' = s_offset_pio1 w
  /\ _pio_offset (strip w') = _pio_offset (strip w)
  /\ exists l, trace w' = trace w ++ l
               /\ Forall (fun c => is_add_program c = false) l.

(** The settings of the object and the heap are untouched. *)
Definition settings_kept {hw} (w w' : World hw) : Prop :=
  same_settings (strip w) (strip w') /\ heap w' = heap w.

(** The state machine index is untouched. *)
Definition sm_kept {hw} (w w' : World hw) : Prop :=
  _sm (strip w') = _sm (strip w).

(** From every state the method returns, with a result that satisfies
    [Q]. *)
Definition returns {hw A} (Q : A -> Prop) (m : M hw A) : Prop :=
  forall w, exists a w', m w = Ret (a, w') /\ Q a.

(** The SDK function does not panic, whatever the hardware state. *)
Definition never_panics {hw} (P : Platform hw) (q : sdk_query) : Prop :=
  forall h, exists v h', sdk_query_exec q h = Returns v h'.

(** [pio_sm_put_blocking] of one word, as a trace entry. *)
Definition put_call (p : PIO) (sm : Z) (x : Z) : sdk_call :=
  Cmd (pio_sm_put_blocking p sm x).

(** Projections of a rebuilt object, without unfolding anything else. *)
Ltac fields :=
  cbn [_pin _count _rgbw _freq _pio _sm _dma_ch _pio_offset _buf _frame_tx
       _brightness _gamma_on _gam _tx_in_flight
       set_buf set_brightness set_gamma_on set_gam set_sm set_dma_ch
       set_pio_offset setAll_RGBW setAll_RGB clear setBrightness Strip_new]
    in *.

(* ===================================================================== *)
(** * Fixed-width arithmetic *)
(* ===================================================================== *)

Lemma to_u8_id x : is_u8 x -> to_u8 x = x.
Proof. unfold is_u8, to_u8. intros H. apply Z.mod_small. lia. Qed.

Lemma to_u8_is_u8 x : is_u8 (to_u8 x).
Proof. unfold is_u8, to_u8. apply Z.mod_pos_bound. lia. Qed.

Lemma scale_u8_is_u8 v b : is_u8 (scale_u8 v b).
Proof. apply to_u8_is_u8. Qed.

Lemma scale_u8_eq v b :
  is_u8 v -> is_u8 b -> scale_u8 v b = (v * b + 127) / 255.
Proof.
  unfold is_u8, scale_u8, to_u8, to_u16. intros Hv Hb.
  rewrite (Z.mod_small v), (Z.mod_small b) by lia.
  rewrite Z.quot_div_nonneg by nia.
  apply Z.mod_small.
  split.
  - apply Z.div_pos; nia.
  - apply Z.div_lt_upper_bound; nia.
Qed.

Lemma scale_u8_zero b : scale_u8 0 b = 0.
Proof. unfold scale_u8. rewrite Z.mul_0_l. reflexivity. Qed.

(** ** C2 *)

(** C2. For 8-bit [v], [b], [b']: [scale_u8 v b] is [(v*b + 127) / 255],
    which is the integer nearest to [v*b/255]; full brightness is the
    identity, brightness 0 gives 0, and the result does not decrease when
    the brightness grows. *)
Theorem scale_u8_rounds (v b b' : Z) :
  is_u8 v -> is_u8 b -> is_u8 b' -> b <= b' ->
  scale_u8 v b = (v * b + 127) / 255
  /\ -127 <= 255 * scale_u8 v b - v * b <= 127
  /\ scale_u8 v 255 = v
  /\ scale_u8 v 0 = 0
  /\ scale_u8 v b <= scale_u8 v b'.
Proof.
  intros Hv Hb Hb' Hle.
  assert (H255 : is_u8 255) by (unfold is_u8; lia).
  assert (H0 : is_u8 0) by (unfold is_u8; lia).
  rewrite !scale_u8_eq by assumption.
  unfold is_u8 in *.
  repeat split.
  - pose proof (Z.mod_pos_bound (v * b + 127) 255 ltac:(lia)).
    pose proof (Z.div_mod (v * b + 127) 255 ltac:(lia)). lia.
  - pose proof (Z.mod_pos_bound (v * b + 127) 255 ltac:(lia)).
    pose proof (Z.div_mod (v * b + 127) 255 ltac:(lia)). lia.
  - replace (v * 255 + 127) with (127 + v * 255) by lia.
    rewrite Z.div_add by lia. reflexivity.
  - rewrite Z.mul_0_r. reflexivity.
  - apply Z.div_le_mono; nia.
Qed.

Lemma scale_u8_rounds_witness :
  scale_u8 200 128 = (200 * 128 + 127) / 255
  /\ -127 <= 255 * scale_u8 200 128 - 200 * 128 <= 127
  /\ scale_u8 200 255 = 200
  /\ scale_u8 200 0 = 0
  /\ scale_u8 200 128 <= scale_u8 200 129.
Proof.
  apply (scale_u8_rounds 200 128 129); unfold is_u8; lia.
Defined.

Lemma lor_bound a b n :
  0 <= n -> 0 <= a < 2 ^ n -> 0 <= b < 2 ^ n -> 0 <= Z.lor a b < 2 ^ n.
Proof.
  intros Hn Ha Hb.
  assert (Hnn : 0 <= Z.lor a b) by (apply Z.lor_nonneg; lia).
  split; [exact Hnn|].
  destruct (Z.eq_dec a 0) as [->|Ha0]; [rewrite Z.lor_0_l; lia|].
  destruct (Z.eq_dec b 0) as [->|Hb0]; [rewrite Z.lor_0_r; lia|].
  destruct (Z.eq_dec (Z.lor a b) 0) as [->|Hl0]; [lia|].
  apply Z.log2_lt_pow2; [lia|].
  rewrite Z.log2_lor by lia.
  assert (Z.log2 a < n) by (apply Z.log2_lt_pow2; lia).
  assert (Z.log2 b < n) by (apply Z.log2_lt_pow2; lia).
  lia.
Qed.

Lemma shiftl_bound a k n :
  0 <= k -> 0 <= n -> 0 <= a < 2 ^ n -> 0 <= Z.shiftl a k < 2 ^ (n + k).
Proof.
  intros Hk Hn Ha. rewrite Z.shiftl_mul_pow2 by lia.
  rewrite Z.pow_add_r by lia.
  assert (0 < 2 ^ k) by (apply Z.pow_pos_nonneg; lia). nia.
Qed.

Lemma to_u32_id x : 0 <= x < 2 ^ 32 -> to_u32 x = x.
Proof. intros H. unfold to_u32. apply Z.mod_small. exact H. Qed.

(* ===================================================================== *)
(** * The frame encoder *)
(* ===================================================================== *)

Lemma foldl_insert_seq {A} (f : nat -> A) (l : list A) (k : nat) :
  (k <= length l)%nat ->
  foldl (fun o i => <[i := f i]> o) l (seq 0 k) = (f <$> seq 0 k) ++ drop k l.
Proof.
  induction k as [|k IH]; intros Hk.
  - simpl. rewrite drop_0. reflexivity.
  - rewrite seq_S, foldl_snoc, IH by lia. simpl.
    rewrite fmap_app. simpl.
    destruct (lookup_lt_is_Some_2 l k ltac:(lia)) as [x Hx].
    rewrite (drop_S l x k Hx).
    rewrite insert_app_r_alt by (rewrite length_fmap, length_seq; lia).
    rewrite length_fmap, length_seq, Nat.sub_diag. simpl.
    rewrite <- app_assoc. reflexivity.
Qed.

Lemma fmap_lookup_total_seq {A B} `{Inhabited A} (g : A -> B) (l : list A) :
  (fun i => g (l !!! i)) <$> seq 0 (length l) = g <$> l.
Proof.
  apply list_eq. intros i.
  rewrite !list_lookup_fmap.
  destruct (decide (i < length l)%nat) as [Hi|Hi].
  - rewrite lookup_seq_lt by lia. simpl.
    destruct (lookup_lt_is_Some_2 l i Hi) as [x Hx].
    rewrite Hx. simpl. f_equal. f_equal.
    apply list_lookup_total_correct. exact Hx.
  - rewrite lookup_seq_ge by lia.
    rewrite lookup_ge_None_2 by lia. reflexivity.
Qed.

Lemma foldl_insert_all {A B} `{Inhabited A} (g : A -> B) (src : list A)
    (out : list B) :
  length out = length src ->
  foldl (fun o i => <[i := g (src !!! i)]> o) out (seq 0 (length src))
  = g <$> src.
Proof.
  intros Hlen.
  rewrite (foldl_insert_seq (fun i => g (src !!! i))) by lia.
  rewrite drop_ge by lia. rewrite app_nil_r.
  apply fmap_lookup_total_seq.
Qed.

(** [build_frame] writes one word per pixel, in buffer order. *)
Lemma build_frame_fmap s out :
  length (_buf s) = _count s ->
  build_frame s out
  = (if _rgbw s then grbw_word s else grb_word s) <$> _buf s.
Proof.
  intros Hlen. unfold build_frame. rewrite <- Hlen.
  destruct (_rgbw s); apply foldl_insert_all; apply length_resize.
Qed.

Lemma length_build_frame s out : length (build_frame s out) = _count s.
Proof.
  unfold build_frame.
  assert (Hfold : forall (f : nat -> Z) l o,
            length (foldl (fun o i => <[i := f i]> o) o l) = length o).
  { intros f l. induction l as [|i l IH]; intros o; simpl; [reflexivity|].
    rewrite IH. apply length_insert. }
  destruct (_rgbw s); rewrite Hfold; apply length_resize.
Qed.

Lemma channel_full_brightness s c :
  _brightness s = 255 -> _gamma_on s = false -> is_u8 c -> channel s c = c.
Proof.
  intros Hb Hg Hc. unfold channel. rewrite Hb, Hg.
  rewrite scale_u8_eq by (unfold is_u8 in *; lia).
  replace (c * 255 + 127) with (127 + c * 255) by lia.
  rewrite Z.div_add by lia. reflexivity.
Qed.

Lemma grb_word_spec r g b :
  is_u8 r -> is_u8 g -> is_u8 b ->
  shl32 (Z.lor (Z.lor (shl32 (to_u32 g) 16) (shl32 (to_u32 r) 8)) b) 8
  = Z.shiftl (Z.lor (Z.lor (Z.shiftl g 16) (Z.shiftl r 8)) b) 8.
Proof.
  unfold is_u8, shl32. intros Hr Hg Hb.
  rewrite (to_u32_id g), (to_u32_id r) by lia.
  pose proof (shiftl_bound g 16 8 ltac:(lia) ltac:(lia) ltac:(lia)) as Hg'.
  pose proof (shiftl_bound r 8 8 ltac:(lia) ltac:(lia) ltac:(lia)) as Hr'.
  simpl Z.add in Hg', Hr'.
  rewrite (to_u32_id (Z.shiftl g 16)), (to_u32_id (Z.shiftl r 8)) by lia.
  pose proof (lor_bound (Z.shiftl g 16) (Z.shiftl r 8) 24 ltac:(lia)
                ltac:(lia) ltac:(lia)) as H1.
  pose proof (lor_bound _ b 24 ltac:(lia) H1 ltac:(lia)) as H2.
  pose proof (shiftl_bound _ 8 24 ltac:(lia) ltac:(lia) H2) as H3.
  simpl Z.add in H3.
  apply to_u32_id. exact H3.
Qed.

Lemma grbw_word_spec r g b w :
  is_u8 r -> is_u8 g -> is_u8 b -> is_u8 w ->
  Z.lor (Z.lor (Z.lor (shl32 (to_u32 g) 24) (shl32 (to_u32 r) 16))
               (shl32 (to_u32 b) 8)) w
  = Z.lor (Z.lor (Z.lor (Z.shiftl g 24) (Z.shiftl r 16)) (Z.shiftl b 8)) w.
Proof.
  unfold is_u8, shl32. intros Hr Hg Hb Hw.
  rewrite (to_u32_id g), (to_u32_id r), (to_u32_id b) by lia.
  pose proof (shiftl_bound g 24 8 ltac:(lia) ltac:(lia) ltac:(lia)) as Hg'.
  pose proof (shiftl_bound r 16 8 ltac:(lia) ltac:(lia) ltac:(lia)) as Hr'.
  pose proof (shiftl_bound b 8 8 ltac:(lia) ltac:(lia) ltac:(lia)) as Hb'.
  simpl Z.add in Hg', Hr', Hb'.
  rewrite (to_u32_id (Z.shiftl g 24)), (to_u32_id (Z.shiftl r 16)),
    (to_u32_id (Z.shiftl b 8)) by lia.
  reflexivity.
Qed.

(** ** C1 *)

(** C1. At brightness 255 with gamma off, [build_frame] emits one word per
    pixel, in buffer order; for the 24-bit variant the word is
    [((G<<16)|(R<<8)|B)<<8], for the 32-bit variant it is
    [(G<<24)|(R<<16)|(B<<8)|W]. *)
Theorem build_frame_full_brightness (s : Strip) (out : list Z) :
  length (_buf s) = _count s ->
  Forall RGBW.wf (_buf s) ->
  _brightness s = 255 ->
  _gamma_on s = false ->
  build_frame s out = spec_word (_rgbw s) <$> _buf s
  /\ length (build_frame s out) = _count s.
Proof.
  intros Hlen Hwf Hb Hg. split; [|apply length_build_frame].
  rewrite build_frame_fmap by exact Hlen.
  apply list_eq. intros i. rewrite !list_lookup_fmap.
  destruct (_buf s !! i) as [p|] eqn:Hp; [|reflexivity]. simpl. f_equal.
  pose proof (Forall_lookup_1 _ _ _ _ Hwf Hp) as (Hr & Hgr & Hbl & Hw).
  unfold spec_word.
  destruct (_rgbw s);
    cbv beta zeta delta [grbw_word grb_word spec_grbw_word spec_grb_word];
    rewrite !channel_full_brightness by assumption.
  - apply grbw_word_spec; assumption.
  - apply grb_word_spec; assumption.
Qed.

Lemma build_frame_full_brightness_witness :
  build_frame
    (setPixel_rgb (Strip_new 16 1 false (F32.of_int 800000) pio0 (-1))
                  0 0x12 0x34 0x56) []
  = [0x34125600]
  /\ build_frame
       (setPixel_RGBW (Strip_new 16 1 true (F32.of_int 800000) pio0 (-1))
                      0 (RGBW.mk 0x10 0x20 0x30 0x40)) []
     = [0x20103040].
Proof.
  split.
  - destruct (build_frame_full_brightness
                (setPixel_rgb (Strip_new 16 1 false (F32.of_int 800000) pio0 (-1))
                              0 0x12 0x34 0x56) []) as [H _].
    + reflexivity.
    + vm_compute; repeat constructor; discriminate.
    + reflexivity.
    + reflexivity.
    + rewrite H. vm_compute. reflexivity.
  - destruct (build_frame_full_brightness
                (setPixel_RGBW (Strip_new 16 1 true (F32.of_int 800000) pio0 (-1))
                               0 (RGBW.mk 0x10 0x20 0x30 0x40)) []) as [H _].
    + reflexivity.
    + vm_compute; repeat constructor; discriminate.
    + reflexivity.
    + reflexivity.
    + rewrite H. vm_compute. reflexivity.
Defined.

(* ===================================================================== *)
(** * The pixel buffer *)
(* ===================================================================== *)

(** ** C5 *)

(** C5. For an index [i >= _count] (so also [i = _count]) each of the three
    [setPixel] overloads returns with the object as it was: no slot and no
    length changes.  The methods are total, there is no error to report. *)
Theorem setPixel_out_of_range (s : Strip) (i : nat) (c3 : RGB.t) (r g b : Z)
    (c4 : RGBW.t) :
  (_count s <= i)%nat ->
  setPixel_RGB s i c3 = s
  /\ setPixel_rgb s i r g b = s
  /\ setPixel_RGBW s i c4 = s.
Proof.
  intros Hi.
  unfold setPixel_RGB, setPixel_rgb, setPixel_RGBW.
  apply Nat.leb_le in Hi. rewrite Hi. auto.
Qed.

Lemma setPixel_out_of_range_witness :
  let s := Strip_new 16 3 false (F32.of_int 800000) pio0 (-1) in
  setPixel_RGB s 3 (RGB.mk 255 0 0) = s
  /\ setPixel_rgb s 3 255 0 0 = s
  /\ setPixel_RGBW s 3 (RGBW.mk 255 0 0 9) = s.
Proof.
  intros s.
  apply (setPixel_out_of_range s 3%nat (RGB.mk 255 0 0) 255 0 0
           (RGBW.mk 255 0 0 9)).
  vm_compute. lia.
Defined.

(** In range the slot is written and nothing else. *)
Lemma setPixel_RGBW_in_range s i c :
  (i < _count s)%nat -> length (_buf s) = _count s ->
  _buf (setPixel_RGBW s i c) !! i = Some c
  /\ (forall j, j <> i -> _buf (setPixel_RGBW s i c) !! j = _buf s !! j)
  /\ length (_buf (setPixel_RGBW s i c)) = length (_buf s).
Proof.
  intros Hi Hlen. unfold setPixel_RGBW.
  destruct (_count s <=? i)%nat eqn:E; [apply Nat.leb_le in E; lia|].
  fields. repeat split.
  - apply list_lookup_insert_eq. lia.
  - intros j Hj. apply list_lookup_insert_ne. auto.
  - apply length_insert.
Qed.

(* ===================================================================== *)
(** * The gamma table *)
(* ===================================================================== *)

Lemma fill_gam_fmap f gam :
  length gam = 256%nat ->
  fill_gam f gam = (fun i => f (Z.of_nat i)) <$> seq 0 256.
Proof.
  intros Hlen. unfold fill_gam.
  rewrite (foldl_insert_seq (fun i => f (Z.of_nat i)) gam 256) by lia.
  rewrite drop_ge by lia. apply app_nil_r.
Qed.

Lemma length_fill_gam f gam : length (fill_gam f gam) = length gam.
Proof.
  unfold fill_gam. generalize (seq 0 256). intros l. revert gam.
  induction l as [|i l IH]; intros gam; simpl; [reflexivity|].
  rewrite IH. apply length_insert.
Qed.

Lemma identity_table_lookup (i : nat) :
  (i < 256)%nat -> identity_table !! i = Some (Z.of_nat i).
Proof.
  intros Hi. unfold identity_table.
  rewrite list_lookup_fmap, lookup_seq_lt by lia. simpl.
  f_equal. apply to_u8_id. unfold is_u8. lia.
Qed.

(** ** C6 *)

(** C6. Whatever [std::pow] computes, [enableGamma(false)] after
    [enableGamma(true)] leaves the identity table: [_gam[i] = i] for every
    [i] in [0, 255], and gamma is off. *)
Theorem enableGamma_off_restores_identity
    (powf : F32.float -> F32.float -> F32.float) (s : Strip) (i : nat) :
  length (_gam s) = 256%nat ->
  (i < 256)%nat ->
  let s' := enableGamma powf (enableGamma powf s true) false in
  _gam s' !! i = Some (Z.of_nat i)
  /\ length (_gam s') = 256%nat
  /\ _gamma_on s' = false.
Proof.
  intros Hlen Hi s'. subst s'. unfold enableGamma. fields.
  rewrite (fill_gam_fmap (fun i => to_u8 i))
    by (rewrite length_fill_gam; exact Hlen).
  fold identity_table.
  split; [apply identity_table_lookup; exact Hi|].
  split; [|reflexivity].
  unfold identity_table. rewrite length_fmap, length_seq. reflexivity.
Qed.

Lemma enableGamma_off_restores_identity_witness :
  let s' := enableGamma Sim.powf (enableGamma Sim.powf Sim.strip2 true) false in
  _gam s' !! 200%nat = Some 200
  /\ length (_gam s') = 256%nat
  /\ _gamma_on s' = false.
Proof.
  apply (enableGamma_off_restores_identity Sim.powf Sim.strip2 200).
  - vm_compute. reflexivity.
  - lia.
Defined.

(** The invariant holds after construction and is kept by the buffer and
    pipeline methods. *)
Lemma Strip_new_inv powf pin count rgbw freq pio sm :
  Strip_inv powf (Strip_new pin count rgbw freq pio sm).
Proof.
  split; fields.
  - apply length_replicate.
  - apply Forall_replicate. repeat split; cbn; lia.
  - apply fill_gam_fmap. apply length_replicate.
Qed.

Lemma length_tables powf s :
  Strip_inv powf s -> length (_gam s) = 256%nat.
Proof.
  intros [_ _ H]. rewrite H.
  destruct (_gamma_on s); unfold gamma_table, identity_table;
    rewrite length_fmap, length_seq; reflexivity.
Qed.

Lemma setAll_RGBW_inv powf s c :
  RGBW.wf c -> Strip_inv powf s -> Strip_inv powf (setAll_RGBW s c).
Proof.
  intros Hc [Hl Hp Hg]. split; fields.
  - rewrite length_replicate. exact Hl.
  - apply Forall_replicate. exact Hc.
  - exact Hg.
Qed.

Lemma clear_inv powf s : Strip_inv powf s -> Strip_inv powf (clear s).
Proof. apply setAll_RGBW_inv. repeat split; cbn; lia. Qed.

Lemma setAll_RGB_inv powf s c :
  RGB.wf c -> Strip_inv powf s -> Strip_inv powf (setAll_RGB s c).
Proof.
  intros (Hr & Hg & Hb). apply setAll_RGBW_inv.
  repeat split; cbn; solve [apply Hr | apply Hg | apply Hb | lia].
Qed.

Lemma setPixel_RGBW_inv powf s i c :
  RGBW.wf c -> Strip_inv powf s -> Strip_inv powf (setPixel_RGBW s i c).
Proof.
  intros Hc [Hl Hp Hg]. unfold setPixel_RGBW.
  destruct (_count s <=? i)%nat; [split; assumption|].
  split; fields.
  - rewrite length_insert. exact Hl.
  - apply Forall_insert; assumption.
  - exact Hg.
Qed.

Lemma setPixel_rgb_inv powf s i r g b :
  is_u8 r -> is_u8 g -> is_u8 b ->
  Strip_inv powf s -> Strip_inv powf (setPixel_rgb s i r g b).
Proof.
  intros Hr Hg Hb. apply (setPixel_RGBW_inv powf s i (RGBW.mk r g b 0)).
  repeat split; cbn; solve [apply Hr | apply Hg | apply Hb | lia].
Qed.

Lemma setPixel_RGB_inv powf s i c :
  RGB.wf c -> Strip_inv powf s -> Strip_inv powf (setPixel_RGB s i c).
Proof.
  intros (Hr & Hg & Hb). apply setPixel_rgb_inv; assumption.
Qed.

Lemma setBrightness_inv powf s b :
  Strip_inv powf s -> Strip_inv powf (setBrightness s b).
Proof. intros [Hl Hp Hg]. split; assumption. Qed.

Lemma enableGamma_inv powf s on :
  Strip_inv powf s -> Strip_inv powf (enableGamma powf s on).
Proof.
  intros Hinv. pose proof (length_tables powf s Hinv) as Hlen.
  destruct Hinv as [Hl Hp Hg].
  unfold enableGamma. destruct on; split; fields; try assumption;
    apply fill_gam_fmap; exact Hlen.
Qed.

(** The rounding and conversion helpers on a few values: 2.5, -2.5, 0.25
    and 254.5. *)
Example round_examples :
  F32.to_uint8 (F32.round (S754_finite false 5 (-1))) = 3
  /\ F32.round (S754_finite true 5 (-1)) = F32.of_int (-3)
  /\ F32.to_uint8 (F32.round (S754_finite false 1 (-2))) = 0
  /\ F32.to_uint8 (F32.round (S754_finite false 509 (-1))) = 255
  /\ F32.to_uint8 (S754_finite false 511 (-1)) = 255
  /\ gamma_entry Sim.powf 128 = 64
  /\ gamma_entry Sim.powf 255 = 255.
Proof. vm_compute. repeat split. Qed.

Lemma gamma_entry_zero powf :
  is_zero (powf (S754_zero false) F32.c2_2) -> gamma_entry powf 0 = 0.
Proof.
  intros Hz. unfold gamma_entry.
  change (F32.div (F32.of_int 0) F32.c255) with (S754_zero false).
  destruct (powf (S754_zero false) F32.c2_2) as [sgn| | |]; try contradiction.
  destruct sgn; reflexivity.
Qed.

Lemma channel_zero powf s :
  is_zero (powf (S754_zero false) F32.c2_2) -> Strip_inv powf s ->
  channel s 0 = 0.
Proof.
  intros Hz [_ _ Hg]. unfold channel.
  destruct (_gamma_on s).
  - rewrite Hg. unfold gamma_table.
    change (Z.to_nat 0) with 0%nat.
    change (seq 0 256) with (0%nat :: seq 1 255).
    rewrite fmap_cons. cbn [lookup_total list_lookup_total].
    change (Z.of_nat 0) with 0.
    rewrite (gamma_entry_zero powf Hz). apply scale_u8_zero.
  - apply scale_u8_zero.
Qed.

(* ===================================================================== *)
(** * Zero stays zero *)
(* ===================================================================== *)

(** ** C10 *)

(** C10. With [pow(+0, 2.2f)] a zero, as the C library guarantees, in every
    state the methods can reach (any brightness, gamma on or off) a channel
    value of 0 goes through the pipeline to 0, an all-zero pixel encodes to
    the word 0 in both wire formats, and after [clear()] the encoder emits
    [_count] zero words. *)
Theorem zero_encodes_to_zero
    (powf : F32.float -> F32.float -> F32.float) (s : Strip) (out : list Z) :
  is_zero (powf (S754_zero false) F32.c2_2) ->
  Strip_inv powf s ->
  channel s 0 = 0
  /\ grb_word s (RGBW.mk 0 0 0 0) = 0
  /\ grbw_word s (RGBW.mk 0 0 0 0) = 0
  /\ build_frame (clear s) out = replicate (_count s) 0.
Proof.
  intros Hz Hinv.
  pose proof (channel_zero powf s Hz Hinv) as Hc.
  assert (Hgrb : grb_word s (RGBW.mk 0 0 0 0) = 0).
  { cbv beta zeta delta [grb_word]. cbn [RGBW.r RGBW.g RGBW.b].
    rewrite Hc. reflexivity. }
  assert (Hgrbw : grbw_word s (RGBW.mk 0 0 0 0) = 0).
  { cbv beta zeta delta [grbw_word]. cbn [RGBW.r RGBW.g RGBW.b RGBW.w].
    rewrite Hc. reflexivity. }
  repeat split; try assumption.
  pose proof (inv_length _ _ Hinv) as Hlen.
  rewrite build_frame_fmap by (fields; rewrite length_replicate; exact Hlen).
  fields. rewrite Hlen, fmap_replicate. f_equal.
  assert (Hsame : forall p, grb_word (clear s) p = grb_word s p
                            /\ grbw_word (clear s) p = grbw_word s p).
  { intros p. split; reflexivity. }
  destruct (Hsame (RGBW.mk 0 0 0 0)) as [H1 H2].
  destruct (_rgbw s).
  - fold (clear s). rewrite H2. exact Hgrbw.
  - fold (clear s). rewrite H1. exact Hgrb.
Qed.

Lemma zero_encodes_to_zero_witness :
  let s := setBrightness
             (enableGamma Sim.powf
                (setAll_RGB Sim.strip2 (RGB.mk 255 128 7)) true) 77 in
  channel s 0 = 0
  /\ grb_word s (RGBW.mk 0 0 0 0) = 0
  /\ grbw_word s (RGBW.mk 0 0 0 0) = 0
  /\ build_frame (clear s) [5; 6; 7] = replicate (_count s) 0.
Proof.
  intros s.
  apply (zero_encodes_to_zero Sim.powf s [5; 6; 7]).
  - vm_compute. exact I.
  - split.
    + vm_compute. reflexivity.
    + vm_compute. repeat constructor; discriminate.
    + vm_compute. reflexivity.
Defined.

(* ===================================================================== *)
(** * Reasoning about methods *)
(* ===================================================================== *)

Lemma bind_ret_inv {hw A B} (m : M hw A) (k : A -> M hw B) w b w' :
  bind m k w = Ret (b, w') ->
  exists a w1, m w = Ret (a, w1) /\ k a w1 = Ret (b, w').
Proof.
  unfold bind. destruct (m w) as [[a w1]| | |]; try discriminate.
  intros H. exists a, w1. split; [reflexivity|exact H].
Qed.

Lemma bind_ret {hw A B} (m : M hw A) (k : A -> M hw B) w a w1 :
  m w = Ret (a, w1) -> bind m k w = k a w1.
Proof. unfold bind. intros ->. reflexivity. Qed.

Ltac inv_bind H :=
  let a := fresh "a" in
  let w := fresh "w" in
  let E := fresh "E" in
  apply bind_ret_inv in H; destruct H as (a & w & E & H).

(** A relation between the state before and after a method that every
    primitive step respects is respected by the whole method. *)
Section Frame.

Context {hw : Type} {P : Platform hw}.
Variable R : World hw -> World hw -> Prop.
Hypothesis R_refl : forall w, R w w.
Hypothesis R_trans : forall w1 w2 w3, R w1 w2 -> R w2 w3 -> R w1 w3.

Lemma respects_ret {A} (a : A) : respects R (ret a).
Proof using R_refl.
  intros w a' w' H. unfold ret in H. inversion H. apply R_refl.
Qed.

Lemma respects_bind {A B} (m : M hw A) (k : A -> M hw B) :
  respects R m -> (forall a, respects R (k a)) -> respects R (bind m k).
Proof using R_trans.
  intros Hm Hk w b w' H. inv_bind H.
  eapply R_trans; [eapply Hm; eassumption|eapply Hk; eassumption].
Qed.

Lemma respects_this : respects R this.
Proof using R_refl.
  intros w a w' H. unfold this in H. inversion H. apply R_refl.
Qed.

Lemma respects_get_s_offset_pio0 : respects R get_s_offset_pio0.
Proof using R_refl.
  intros w a w' H. unfold get_s_offset_pio0 in H. inversion H. apply R_refl.
Qed.

Lemma respects_get_s_offset_pio1 : respects R get_s_offset_pio1.
Proof using R_refl.
  intros w a w' H. unfold get_s_offset_pio1 in H. inversion H. apply R_refl.
Qed.

Lemma respects_vector_get a : respects R (vector_get a).
Proof using R_refl.
  intros w l w' H. unfold vector_get in H.
  destruct (heap w !! a); inversion H. apply R_refl.
Qed.

Lemma respects_load data i : respects R (load data i).
Proof using R_refl.
  intros w x w' H. unfold load in H.
  destruct data as [| |a]; try discriminate.
  destruct (heap w !! a) as [l|]; try discriminate.
  destruct (l !! i); inversion H. apply R_refl.
Qed.

Lemma respects_for_each {A} (l : list A) (body : A -> M hw unit) :
  (forall x, respects R (body x)) -> respects R (for_each l body).
Proof using R_refl R_trans.
  intros Hb. induction l as [|x l IH]; simpl.
  - apply respects_ret.
  - apply respects_bind; [apply Hb|intros _; exact IH].
Qed.

Lemma respects_spin fuel ch :
  (forall w, R w (set_hardware w (tight_loop_contents (hardware w)))) ->
  respects R (spin fuel ch).
Proof using R_refl R_trans.
  intros Htick. induction fuel as [|fuel IH]; intros w a w' H; simpl in H.
  - discriminate.
  - destruct (dma_channel_is_busy ch (hardware w)).
    + eapply R_trans; [apply Htick|]. eapply IH. exact H.
    + inversion H. apply R_refl.
Qed.

End Frame.

(** ** The reference platform has the three platform properties *)

Lemma sim_iter_tick n h :
  Sim.remaining (Nat.iter n Sim.tick h) = (Sim.remaining h - n)%nat.
Proof.
  induction n as [|n IH]; simpl.
  - lia.
  - rewrite IH. lia.
Qed.

Lemma sim_required_claim : required_claim_never_negative Sim.platform.
Proof.
  intros p h v h'. simpl. unfold Sim.query_exec.
  destruct (Sim.free_sm h) as [|x rest]; [discriminate|].
  intros H. inversion H. lia.
Qed.

Lemma sim_transfers_end : transfers_end Sim.platform.
Proof.
  intros ch h. exists (Sim.remaining h). simpl. unfold Sim.is_busy.
  rewrite sim_iter_tick, Nat.sub_diag. reflexivity.
Qed.

Lemma sim_idle_stays_idle : idle_stays_idle Sim.platform.
Proof.
  intros ch us h. simpl. unfold Sim.is_busy. simpl.
  destruct (Sim.remaining h); [|discriminate]. intros _. reflexivity.
Qed.

(* ===================================================================== *)
(** * [begin] *)
(* ===================================================================== *)

Lemma query_ret_inv {hw} {P : Platform hw} q (w : World hw) v w' :
  query q w = Ret (v, w') ->
  exists h, sdk_query_exec q (hardware w) = Returns v h
            /\ w' = set_hardware (record w (Query q)) h.
Proof.
  unfold query. destruct (sdk_query_exec q (hardware w)) as [v0 h|];
    [|discriminate].
  intros H. inversion H. subst. exists h. split; reflexivity.
Qed.

Lemma quiet_refl {hw} (w : World hw) : quiet w w.
Proof.
  split; [reflexivity|]. exists []. rewrite app_nil_r. split; constructor.
Qed.

Lemma quiet_trans {hw} (w1 w2 w3 : World hw) :
  quiet w1 w2 -> quiet w2 w3 -> quiet w1 w3.
Proof.
  intros [Hl1 (l1 & Ht1 & Hq1)] [Hl2 (l2 & Ht2 & Hq2)].
  split; [congruence|].
  exists (l1 ++ l2). split.
  - rewrite Ht2, Ht1, app_assoc. reflexivity.
  - apply Forall_app. split; assumption.
Qed.

Lemma quiet_query {hw} {P : Platform hw} q : respects (@quiet hw) (query q).
Proof.
  intros w v w' H. apply query_ret_inv in H as (h & _ & ->).
  split; [reflexivity|]. exists [Query q]. split; [reflexivity|].
  repeat constructor.
Qed.

Lemma quiet_cmd {hw} {P : Platform hw} c :
  transmits (Cmd c) = false -> respects (@quiet hw) (cmd c).
Proof.
  intros Hc w v w' H. unfold cmd in H. inversion H.
  split; [reflexivity|]. exists [Cmd c]. split; [reflexivity|].
  repeat constructor. exact Hc.
Qed.

Lemma quiet_update {hw} {P : Platform hw} f :
  (forall s, length (_buf (f s)) = length (_buf s)) ->
  respects (@quiet hw) (update f).
Proof.
  intros Hf w v w' H. unfold update in H. inversion H.
  split; [apply Hf|]. exists []. rewrite app_nil_r. split; constructor.
Qed.

Lemma quiet_set_s_offset_pio0 {hw} {P : Platform hw} v :
  respects (@quiet hw) (set_s_offset_pio0 v).
Proof.
  intros w a w' H. inversion H.
  split; [reflexivity|]. exists []. rewrite app_nil_r. split; constructor.
Qed.

Lemma quiet_set_s_offset_pio1 {hw} {P : Platform hw} v :
  respects (@quiet hw) (set_s_offset_pio1 v).
Proof.
  intros w a w' H. inversion H.
  split; [reflexivity|]. exists []. rewrite app_nil_r. split; constructor.
Qed.

Ltac quiet_step :=
  first
    [ apply (respects_bind quiet quiet_trans); [|intros ?]
    | apply (respects_ret quiet quiet_refl)
    | apply (respects_this quiet quiet_refl)
    | apply (respects_get_s_offset_pio0 quiet quiet_refl)
    | apply (respects_get_s_offset_pio1 quiet quiet_refl)
    | apply quiet_set_s_offset_pio0
    | apply quiet_set_s_offset_pio1
    | apply quiet_query
    | apply quiet_cmd; reflexivity
    | apply quiet_update; intros ?; fields;
        rewrite ?length_replicate; reflexivity
    | match goal with
      | |- respects _ (if ?c then _ else _) => destruct c
      end ].

(** [begin] puts nothing on the wire and keeps the length of the buffer. *)
Lemma begin_quiet {hw} {P : Platform hw} : respects (@quiet hw) begin.
Proof. unfold begin. repeat quiet_step. Qed.

(** When [begin] answers [true], the last thing it did was [clear()]. *)
Lemma begin_clears {hw} {P : Platform hw} (w w' : World hw) :
  begin w = Ret (true, w') ->
  Forall (fun p => p = RGBW.mk 0 0 0 0) (_buf (strip w')).
Proof.
  intros H. unfold begin in H.
  do 3 inv_bind H.
  match type of H with
  | (if negb ?c then _ else _) _ = _ => destruct c; cbn [negb] in H
  end; [|discriminate].
  do 4 inv_bind H.
  match goal with
  | Hu : update clear _ = Ret _ |- _ => unfold update in Hu; inversion Hu
  end.
  unfold ret in H. inversion H. subst. fields.
  apply Forall_replicate. reflexivity.
Qed.

(** On success the buffer is cleared and nothing was transmitted. *)
Lemma begin_success {hw} {P : Platform hw} (w w' : World hw) :
  begin w = Ret (true, w') ->
  _buf (strip w') = replicate (length (_buf (strip w))) (RGBW.mk 0 0 0 0)
  /\ exists l, trace w' = trace w ++ l
               /\ Forall (fun c => transmits c = false) l.
Proof.
  intros H. pose proof (begin_clears w w' H) as Hz.
  destruct (begin_quiet w true w' H) as [Hlen Htr].
  split; [|exact Htr].
  rewrite <- Hlen. clear - Hz.
  induction Hz as [|p l -> _ IH]; simpl; [reflexivity|].
  f_equal. exact IH.
Qed.

(** With a state machine given to the constructor there is no path to
    [return false], whatever [pio_add_program] answers. *)
Lemma begin_preset_sm {hw} {P : Platform hw} (w : World hw) b w' :
  0 <= _sm (strip w) -> begin w = Ret (b, w') -> b = true.
Proof.
  intros Hsm H. unfold begin in H.
  apply bind_ret_inv in H as (s & w0 & Hs & H).
  unfold this in Hs. inversion Hs. subst s w0. clear Hs.
  apply bind_ret_inv in H as (u & w1 & _ & H).
  apply bind_ret_inv in H as (claimed & w2 & Hc & H).
  destruct (_sm (strip w) <? 0) eqn:Hlt; [apply Z.ltb_lt in Hlt; lia|].
  unfold ret in Hc. inversion Hc. subst claimed w2. cbn [negb] in H.
  do 4 inv_bind H. unfold ret in H. inversion H. reflexivity.
Qed.

(** ** C4 *)

(** C4 (the code departs from it). On a platform where a required state
    machine claim does not come back with a negative index, which is what
    the SDK promises for [pio_claim_unused_sm(pio, true)], every run of
    [begin] that returns, returns [true]: the result of [pio_add_program]
    is never tested, and the test after the claim cannot fire. *)
Theorem begin_never_returns_false {hw} (P : Platform hw)
    (L : required_claim_never_negative P)
    (w : World hw) (b : bool) (w' : World hw) :
  begin w = Ret (b, w') -> b = true.
Proof.
  intros H.
  destruct (Z_lt_le_dec (_sm (strip w)) 0) as [Hneg|Hpos];
    [|eapply begin_preset_sm; eassumption].
  unfold begin in H.
  apply bind_ret_inv in H as (s & w0 & Hs & H).
  unfold this in Hs. inversion Hs. subst s w0. clear Hs.
  apply bind_ret_inv in H as (u & w1 & _ & H).
  apply bind_ret_inv in H as (claimed & w2 & Hc & H).
  apply Z.ltb_lt in Hneg. rewrite Hneg in Hc.
  apply bind_ret_inv in Hc as (sm & w3 & Hq & Hc).
  apply bind_ret_inv in Hc as (u' & w4 & _ & Hc).
  apply query_ret_inv in Hq as (h & Hq & _).
  apply L in Hq.
  unfold ret in Hc. inversion Hc. subst claimed w4.
  destruct (sm <? 0) eqn:Hlt; [apply Z.ltb_lt in Hlt; lia|].
  cbn [negb] in H.
  do 4 inv_bind H. unfold ret in H. inversion H. reflexivity.
Qed.

Lemma begin_never_returns_false_witness :
  exists w', begin (Sim.boot Sim.strip2 Sim.board_full) = Ret (true, w')
             /\ _pio_offset (strip w') = 4294967295
             /\ s_offset_pio0 w' = -1.
Proof.
  destruct (begin (Sim.boot Sim.strip2 Sim.board_full)) as [[b w']| | |] eqn:E.
  - exists w'.
    rewrite (begin_never_returns_false Sim.platform sim_required_claim _ b w' E).
    split; [reflexivity|].
    vm_compute in E. inversion E. split; reflexivity.
  - vm_compute in E. discriminate.
  - vm_compute in E. discriminate.
  - vm_compute in E. discriminate.
Defined.

(** Without a free state machine the required claim panics: [begin] does
    not return at all. *)
Example begin_without_state_machine :
  begin (Sim.boot Sim.strip_auto Sim.board_no_sm) = Panic.
Proof. vm_compute. reflexivity. Qed.

(** Without a free DMA channel [begin] still succeeds. *)
Example begin_without_dma_channel :
  exists w', begin (Sim.boot Sim.strip_auto Sim.board_no_dma) = Ret (true, w')
             /\ _dma_ch (strip w') = -1 /\ _sm (strip w') = 0.
Proof. eexists. vm_compute. repeat split. Qed.

(* ===================================================================== *)
(** * Transmission *)
(* ===================================================================== *)

Lemma vector_modify_ok {hw} {P : Platform hw} a f l (w : World hw) :
  heap w !! a = Some l ->
  vector_modify a f w = Ret (tt, set_heap w (<[a := f l]> (heap w))).
Proof. unfold vector_modify. intros ->. reflexivity. Qed.

Lemma vector_get_ok {hw} {P : Platform hw} a l (w : World hw) :
  heap w !! a = Some l -> vector_get a w = Ret (l, w).
Proof. unfold vector_get. intros ->. reflexivity. Qed.

(** [start_dma] with a channel: two register writes, the second one
    triggers the transfer. *)
Lemma start_dma_channel {hw} {P : Platform hw} data words (w : World hw) :
  0 <= _dma_ch (strip w) ->
  start_dma data words w
  = Ret (tt,
         set_hardware
           (record (record w (Cmd (dma_channel_set_read_addr
                                     (_dma_ch (strip w)) data false)))
                   (Cmd (dma_channel_set_trans_count (_dma_ch (strip w))
                           (to_u32 (Z.of_nat words)) true)))
           (sdk_cmd_exec (dma_channel_set_trans_count (_dma_ch (strip w))
                            (to_u32 (Z.of_nat words)) true)
              (sdk_cmd_exec (dma_channel_set_read_addr (_dma_ch (strip w))
                               data false)
                 (hardware w)))).
Proof.
  intros Hch. unfold start_dma, bind, this.
  destruct (_dma_ch (strip w) <? 0) eqn:Hlt; [apply Z.ltb_lt in Hlt; lia|].
  reflexivity.
Qed.

(** ** C3 *)

(** C3 (the code departs from it). In the DMA build with a channel claimed,
    [showAsync] returns after triggering a transfer of [_count] words whose
    read address is the storage of a vector local to the call; on return
    that storage is gone (the heap is what it was before the call) and
    the object, [_frame_tx] included, is untouched. *)
Theorem showAsync_frame_is_local {hw} (P : Platform hw) (w : World hw) :
  WS2812_USE_DMA = true ->
  0 <= _dma_ch (strip w) ->
  exists a w',
    showAsync w = Ret (tt, w')
    /\ trace w'
       = trace w
         ++ [Cmd (dma_channel_set_read_addr (_dma_ch (strip w)) (Vec a) false);
             Cmd (dma_channel_set_trans_count (_dma_ch (strip w))
                    (to_u32 (Z.of_nat (_count (strip w)))) true)]
    /\ heap w' !! a = None
    /\ heap w' = heap w
    /\ strip w' = strip w.
Proof.
  intros Hdma Hch.
  set (a := fresh (dom (heap w))).
  assert (Hfresh : heap w !! a = None).
  { apply not_elem_of_dom. apply is_fresh. }
  exists a. eexists. split; [|split; [|split; [|split]]].
  - unfold showAsync.
    rewrite (bind_ret this _ w (strip w) w eq_refl).
    rewrite (bind_ret vector_new _ w a _ eq_refl).
    erewrite bind_ret
      by (apply (vector_modify_ok a _ []); apply lookup_insert_eq).
    rewrite Hdma.
    erewrite bind_ret; cycle 1.
    { erewrite bind_ret by (apply vector_get_ok; apply lookup_insert_eq).
      apply start_dma_channel. exact Hch. }
    reflexivity.
  - cbn [trace set_heap set_hardware record strip].
    rewrite length_build_frame, <- app_assoc. reflexivity.
  - cbn [heap set_heap set_hardware record]. apply lookup_delete_eq.
  - cbn [heap set_heap set_hardware record].
    rewrite delete_insert_eq, delete_insert_eq. apply delete_id. exact Hfresh.
  - reflexivity.
Qed.

Lemma showAsync_frame_is_local_witness :
  exists w', showAsync Sim.ready = Ret (tt, w')
             /\ busy w' = true
             /\ heap w' !! 0%nat = None
             /\ _frame_tx (strip w') = [].
Proof.
  destruct (showAsync_frame_is_local Sim.platform Sim.ready eq_refl
              ltac:(vm_compute; discriminate))
    as (a & w' & E & Htr & Hnone & Hheap & Hstrip).
  exists w'. split; [exact E|].
  split; [|split].
  - vm_compute in E. inversion E. reflexivity.
  - rewrite Hheap. reflexivity.
  - rewrite Hstrip. reflexivity.
Defined.

(** ** Polling *)

Lemma spin_ret_inv {hw} {P : Platform hw} fuel ch (w w' : World hw) u :
  spin fuel ch w = Ret (u, w') ->
  dma_channel_is_busy ch (hardware w') = false
  /\ strip w' = strip w /\ heap w' = heap w /\ trace w' = trace w.
Proof.
  revert w. induction fuel as [|fuel IH]; intros w H; simpl in H.
  - discriminate.
  - destruct (dma_channel_is_busy ch (hardware w)) eqn:Hb.
    + apply IH in H. exact H.
    + inversion H. subst. auto.
Qed.

Lemma spin_terminates {hw} {P : Platform hw} n ch (w : World hw) :
  dma_channel_is_busy ch (Nat.iter n tight_loop_contents (hardware w)) = false ->
  exists w', spin (S n) ch w = Ret (tt, w').
Proof.
  revert w. induction n as [|n IH]; intros w H.
  - simpl in *. rewrite H. eauto.
  - cbn [spin]. destruct (dma_channel_is_busy ch (hardware w)) eqn:Hb.
    + apply IH. cbn [hardware set_hardware].
      rewrite <- Nat.iter_succ_r. exact H.
    + eauto.
Qed.

(** ** C7 *)

(** C7. [busy()] is true exactly when a DMA channel was acquired and that
    channel reports an active transfer, so it is false when there is no
    channel; [wait()] returns once it is given enough polling iterations,
    and whenever it returns, [busy()] is false in the state it leaves,
    with or without a channel.  The two hypotheses say that a transfer
    ends and that an idle channel stays idle during [sleep_us]. *)
Theorem busy_false_after_wait {hw} (P : Platform hw)
    (Hend : transfers_end P) (Hidle : idle_stays_idle P) (w : World hw) :
  (busy w = true <->
   WS2812_USE_DMA = true /\ 0 <= _dma_ch (strip w)
   /\ dma_channel_is_busy (_dma_ch (strip w)) (hardware w) = true)
  /\ (WS2812_USE_DMA = false \/ _dma_ch (strip w) < 0 -> busy w = false)
  /\ (exists fuel w', wait fuel w = Ret (tt, w'))
  /\ (forall fuel w', wait fuel w = Ret (tt, w') -> busy w' = false).
Proof.
  split; [|split; [|split]].
  - unfold busy. destruct WS2812_USE_DMA; cbn [andb].
    + destruct (0 <=? _dma_ch (strip w)) eqn:Hch.
      * apply Z.leb_le in Hch. intuition.
      * apply Z.leb_gt in Hch. split; [discriminate|]. intros (_ & ? & _). lia.
    + split; [discriminate|]. intros (? & _). discriminate.
  - unfold busy. intros [->|Hneg]; [reflexivity|].
    apply Z.leb_gt in Hneg. rewrite Hneg, andb_false_r. reflexivity.
  - destruct (WS2812_USE_DMA && (0 <=? _dma_ch (strip w))) eqn:Hc.
    + destruct (Hend (_dma_ch (strip w)) (hardware w)) as [n Hn].
      destruct (spin_terminates n _ w Hn) as [w1 Hw1].
      exists (S n). eexists. unfold wait.
      rewrite (bind_ret this _ w (strip w) w eq_refl), Hc.
      rewrite (bind_ret _ _ _ _ _ Hw1). reflexivity.
    + exists 0%nat. eexists. unfold wait.
      rewrite (bind_ret this _ w (strip w) w eq_refl), Hc. reflexivity.
  - intros fuel w' H. unfold wait in H.
    rewrite (bind_ret this _ w (strip w) w eq_refl) in H.
    apply bind_ret_inv in H as (u & w1 & Hs & H).
    unfold cmd in H. inversion H. subst w'. clear H.
    unfold busy. cbn [strip hardware set_hardware record].
    destruct (WS2812_USE_DMA && (0 <=? _dma_ch (strip w))) eqn:Hc.
    + apply spin_ret_inv in Hs as (Hidle0 & Hstrip & _ & _).
      rewrite Hstrip, Hc. apply Hidle. exact Hidle0.
    + unfold ret in Hs. inversion Hs. subst w1. rewrite Hc. reflexivity.
Qed.

Lemma busy_false_after_wait_witness :
  busy Sim.in_flight = true
  /\ exists fuel w', wait fuel Sim.in_flight = Ret (tt, w')
                     /\ busy w' = false.
Proof.
  destruct (busy_false_after_wait Sim.platform sim_transfers_end
              sim_idle_stays_idle Sim.in_flight)
    as (_ & _ & (fuel & w' & E) & Hafter).
  split; [vm_compute; reflexivity|].
  exists fuel, w'. split; [exact E|]. exact (Hafter fuel w' E).
Defined.

(* ===================================================================== *)
(** * Sending leaves the object alone *)
(* ===================================================================== *)

Lemma same_strip_refl {hw} (w : World hw) : same_strip w w.
Proof. reflexivity. Qed.

Lemma same_strip_trans {hw} (w1 w2 w3 : World hw) :
  same_strip w1 w2 -> same_strip w2 w3 -> same_strip w1 w3.
Proof. unfold same_strip. congruence. Qed.

Lemma same_strip_cmd {hw} {P : Platform hw} c :
  respects (@same_strip hw) (cmd c).
Proof. intros w a w' H. unfold cmd in H. inversion H. reflexivity. Qed.

Lemma same_strip_vector_new {hw} {P : Platform hw} :
  respects (@same_strip hw) vector_new.
Proof. intros w a w' H. unfold vector_new in H. inversion H. reflexivity. Qed.

Lemma same_strip_vector_modify {hw} {P : Platform hw} a f :
  respects (@same_strip hw) (vector_modify a f).
Proof.
  intros w u w' H. unfold vector_modify in H.
  destruct (heap w !! a); inversion H. reflexivity.
Qed.

Lemma same_strip_vector_delete {hw} {P : Platform hw} a :
  respects (@same_strip hw) (vector_delete a).
Proof. intros w u w' H. unfold vector_delete in H. inversion H. reflexivity. Qed.

Lemma same_strip_spin {hw} {P : Platform hw} fuel ch :
  respects (@same_strip hw) (spin fuel ch).
Proof. intros w u w' H. apply spin_ret_inv in H as (_ & H & _). exact H. Qed.

Ltac same_strip_step :=
  first
    [ apply (respects_bind same_strip same_strip_trans); [|intros ?]
    | apply (respects_ret same_strip same_strip_refl)
    | apply (respects_this same_strip same_strip_refl)
    | apply (respects_vector_get same_strip same_strip_refl)
    | apply (respects_load same_strip same_strip_refl)
    | apply (respects_for_each same_strip same_strip_refl same_strip_trans);
        intros ?
    | apply same_strip_cmd
    | apply same_strip_vector_new
    | apply same_strip_vector_modify
    | apply same_strip_vector_delete
    | apply same_strip_spin
    | match goal with
      | |- respects _ (if ?c then _ else _) => destruct c
      end ].

Lemma start_dma_same_strip {hw} {P : Platform hw} data words :
  respects (@same_strip hw) (start_dma data words).
Proof. unfold start_dma. repeat same_strip_step. Qed.

Lemma showAsync_same_strip {hw} {P : Platform hw} :
  respects (@same_strip hw) showAsync.
Proof.
  unfold showAsync. repeat same_strip_step; apply start_dma_same_strip.
Qed.

Lemma show_same_strip {hw} {P : Platform hw} fuel :
  respects (@same_strip hw) (show fuel).
Proof.
  unfold show. repeat same_strip_step; apply start_dma_same_strip.
Qed.

(** ** The sending methods return *)

Lemma for_each_put_returns {hw} {P : Platform hw} p sm (l : list Z)
    (w : World hw) :
  exists w', for_each l (fun x => cmd (pio_sm_put_blocking p sm x)) w
             = Ret (tt, w')
             /\ heap w' = heap w.
Proof.
  revert w. induction l as [|x l IH]; intros w; cbn [for_each].
  - eexists. split; reflexivity.
  - rewrite (bind_ret (cmd _) _ w tt _ eq_refl).
    destruct (IH (set_hardware (record w (Cmd (pio_sm_put_blocking p sm x)))
                    (sdk_cmd_exec (pio_sm_put_blocking p sm x) (hardware w))))
      as (w' & E & Hh).
    exists w'. split; [exact E|]. rewrite Hh. reflexivity.
Qed.

Lemma for_each_load_put_returns {hw} {P : Platform hw} p sm a (l : list Z)
    (idxs : list nat) (w : World hw) :
  heap w !! a = Some l ->
  Forall (fun i => (i < length l)%nat) idxs ->
  exists w', for_each idxs
               (fun i => bind (load (Vec a) i)
                           (fun x => cmd (pio_sm_put_blocking p sm x))) w
             = Ret (tt, w')
             /\ heap w' = heap w.
Proof.
  intros Ha Hidx. revert w Ha.
  induction Hidx as [|i idxs Hi _ IH]; intros w Ha; cbn [for_each].
  - eexists. split; reflexivity.
  - destruct (lookup_lt_is_Some_2 l i Hi) as [x Hx].
    assert (Hload : load (Vec a) i w = Ret (x, w)).
    { unfold load. rewrite Ha, Hx. reflexivity. }
    rewrite (bind_ret _ _ w tt
               (set_hardware (record w (Cmd (pio_sm_put_blocking p sm x)))
                  (sdk_cmd_exec (pio_sm_put_blocking p sm x) (hardware w))))
      by (rewrite (bind_ret _ _ _ _ _ Hload); reflexivity).
    destruct (IH (set_hardware (record w (Cmd (pio_sm_put_blocking p sm x)))
                    (sdk_cmd_exec (pio_sm_put_blocking p sm x) (hardware w)))
                Ha) as (w' & E & Hh).
    exists w'. split; [exact E|]. rewrite Hh. reflexivity.
Qed.

Lemma start_dma_returns {hw} {P : Platform hw} a (l : list Z) (w : World hw) :
  heap w !! a = Some l ->
  exists w', start_dma (Vec a) (length l) w = Ret (tt, w')
             /\ heap w' = heap w /\ strip w' = strip w.
Proof.
  intros Ha.
  destruct (Z_lt_le_dec (_dma_ch (strip w)) 0) as [Hneg|Hpos].
  - unfold start_dma. rewrite (bind_ret this _ w (strip w) w eq_refl).
    apply Z.ltb_lt in Hneg. rewrite Hneg.
    destruct (for_each_load_put_returns (_pio (strip w))
                (to_u32 (_sm (strip w))) a l (seq 0 (length l)) w Ha)
      as (w' & E & Hh).
    { apply Forall_forall. intros i Hi. apply list_elem_of_In, in_seq in Hi. lia. }
    exists w'. split; [exact E|]. split; [exact Hh|].
    eapply (respects_for_each same_strip same_strip_refl same_strip_trans);
      [|exact E].
    intros i. repeat same_strip_step.
  - rewrite (start_dma_channel _ _ w Hpos). eexists.
    split; [reflexivity|]. split; reflexivity.
Qed.

Lemma showAsync_returns {hw} {P : Platform hw} (w : World hw) :
  exists w', showAsync w = Ret (tt, w').
Proof.
  unfold showAsync.
  rewrite (bind_ret this _ w (strip w) w eq_refl).
  rewrite (bind_ret vector_new _ w (fresh (dom (heap w))) _ eq_refl).
  erewrite bind_ret
    by (apply (vector_modify_ok _ _ []); apply lookup_insert_eq).
  set (a := fresh (dom (heap w))).
  set (w2 := set_heap _ _).
  assert (Ha : heap w2 !! a = Some (build_frame (strip w) [])).
  { subst w2. cbn [heap set_heap]. apply lookup_insert_eq. }
  pose proof (vector_get_ok a _ w2 Ha) as Hget.
  destruct WS2812_USE_DMA.
  - destruct (start_dma_returns a _ w2 Ha) as (w3 & E & _).
    erewrite bind_ret; [eexists; reflexivity|].
    rewrite (bind_ret _ _ _ _ _ Hget). exact E.
  - destruct (for_each_put_returns (_pio (strip w)) (to_u32 (_sm (strip w)))
                (build_frame (strip w) []) w2) as (w3 & E & _).
    erewrite bind_ret; [eexists; reflexivity|].
    rewrite (bind_ret _ _ _ _ _ Hget). exact E.
Qed.

Lemma show_returns {hw} {P : Platform hw} (Hend : transfers_end P)
    (w : World hw) :
  exists fuel w', show fuel w = Ret (tt, w').
Proof.
  set (a := fresh (dom (heap w))).
  set (w2 := set_heap (set_heap w (<[a := []]> (heap w)))
               (<[a := build_frame (strip w) []]> (<[a := []]> (heap w)))).
  assert (Ha : heap w2 !! a = Some (build_frame (strip w) [])).
  { subst w2. cbn [heap set_heap]. apply lookup_insert_eq. }
  pose proof (vector_get_ok a _ w2 Ha) as Hget.
  assert (Hmod : vector_modify a (build_frame (strip w))
                   (set_heap w (<[a := []]> (heap w))) = Ret (tt, w2)).
  { apply (vector_modify_ok a _ []). apply lookup_insert_eq. }
  assert (Hsend : exists fuel w3,
            (if WS2812_USE_DMA
             then bind (vector_get a)
                    (fun l => bind (start_dma (Vec a) (length l))
                      (fun _ => if 0 <=? _dma_ch (strip w)
                                then spin fuel (_dma_ch (strip w))
                                else ret tt))
             else bind (vector_get a)
                    (fun l => for_each l
                      (fun x => cmd (pio_sm_put_blocking (_pio (strip w))
                                       (to_u32 (_sm (strip w))) x)))) w2
            = Ret (tt, w3)).
  { destruct WS2812_USE_DMA.
    - destruct (start_dma_returns a _ w2 Ha) as (w3 & E & _ & _).
      destruct (0 <=? _dma_ch (strip w)).
      + destruct (Hend (_dma_ch (strip w)) (hardware w3))
          as [n Hn].
        destruct (spin_terminates n _ w3 Hn) as [w4 Hw4].
        exists (S n), w4.
        rewrite (bind_ret _ _ _ _ _ Hget), (bind_ret _ _ _ _ _ E).
        exact Hw4.
      + exists 0%nat, w3.
        rewrite (bind_ret _ _ _ _ _ Hget), (bind_ret _ _ _ _ _ E).
        reflexivity.
    - destruct (for_each_put_returns (_pio (strip w))
                  (to_u32 (_sm (strip w))) (build_frame (strip w) []) w2)
        as (w3 & E & _).
      exists 0%nat, w3. rewrite (bind_ret _ _ _ _ _ Hget). exact E. }
  destruct Hsend as (fuel & w3 & Hsend).
  exists fuel. eexists. unfold show.
  rewrite (bind_ret this _ w (strip w) w eq_refl).
  rewrite (bind_ret vector_new _ w a _ eq_refl).
  rewrite (bind_ret _ _ _ _ _ Hmod).
  rewrite (bind_ret _ _ _ _ _ Hsend).
  reflexivity.
Qed.

(** ** C9 *)

(** C9. [showAsync] returns, [show] returns once it is given enough polling
    iterations, and whenever either returns the object is what it was
    before the call, so the pixel buffer holds what the caller last wrote.
    [build_frame] is a function of the object that yields the words, and
    [setBrightness] and [enableGamma] do not write the buffer: brightness
    and gamma reach only the words. *)
Theorem sending_leaves_buffer {hw} (P : Platform hw) (Hend : transfers_end P)
    (w : World hw) :
  (exists w', showAsync w = Ret (tt, w'))
  /\ (forall w', showAsync w = Ret (tt, w') -> strip w' = strip w)
  /\ (exists fuel w', show fuel w = Ret (tt, w'))
  /\ (forall fuel w', show fuel w = Ret (tt, w') -> strip w' = strip w)
  /\ (forall b, _buf (setBrightness (strip w) b) = _buf (strip w))
  /\ (forall powf on, _buf (enableGamma powf (strip w) on) = _buf (strip w)).
Proof.
  split; [apply showAsync_returns|].
  split; [intros w' H; exact (showAsync_same_strip w tt w' H)|].
  split; [apply (show_returns Hend)|].
  split; [intros fuel w' H; exact (show_same_strip fuel w tt w' H)|].
  split; [reflexivity|].
  intros powf on. unfold enableGamma. destruct on; reflexivity.
Qed.

Lemma sending_leaves_buffer_witness :
  exists fuel w',
    show fuel Sim.painted = Ret (tt, w')
    /\ _buf (strip w')
       = [RGBW.mk 255 0 0 0; RGBW.mk 1 2 3 0]
    /\ trace w'
       = [Cmd (dma_channel_set_read_addr 0 (Vec 0) false);
          Cmd (dma_channel_set_trans_count 0 2 true);
          Cmd (sleep_us 80)].
Proof.
  destruct (sending_leaves_buffer Sim.platform sim_transfers_end Sim.painted)
    as (_ & _ & (fuel & w' & E) & Hshow & _).
  exists fuel, w'. split; [exact E|]. split.
  - rewrite (Hshow fuel w' E). vm_compute. reflexivity.
  - destruct fuel as [|fuel]; vm_compute in E.
    + discriminate.
    + destruct fuel as [|fuel]; vm_compute in E; [discriminate|].
      destruct fuel as [|fuel]; vm_compute in E; [discriminate|].
      inversion E. reflexivity.
Defined.

(** Three red pixels, no DMA channel: [show] pushes three identical words
    into the FIFO and then sleeps for the reset latch. *)
Example show_three_red_pixels :
  exists w',
    show 0 Sim.ready_no_dma = Ret (tt, w')
    /\ trace w'
       = [Cmd (pio_sm_put_blocking pio0 0 0xFF0000);
          Cmd (pio_sm_put_blocking pio0 0 0xFF0000);
          Cmd (pio_sm_put_blocking pio0 0 0xFF0000);
          Cmd (sleep_us 80)]
    /\ heap w' = ∅.
Proof. eexists. vm_compute. repeat split. Qed.

(* ===================================================================== *)
(** * Further properties of the buffer and the encoder *)
(* ===================================================================== *)

Lemma channel_is_u8 s c : is_u8 (channel s c).
Proof. apply scale_u8_is_u8. Qed.

Lemma lor_disjoint a b k :
  0 <= k -> a mod 2 ^ k = 0 -> 0 <= b < 2 ^ k -> Z.lor a b = a + b.
Proof.
  intros Hk Ha Hb. symmetry. apply Z.add_nocarry_lor.
  apply Z.bits_inj'. intros n Hn.
  rewrite Z.land_spec, Z.bits_0.
  destruct (Z.lt_ge_cases n k) as [Hlt|Hge].
  - assert (Hbit : Z.testbit a n = false).
    { rewrite (Z.div_mod a (2 ^ k)) by (apply Z.pow_nonzero; lia).
      rewrite Ha, Z.add_0_r, Z.mul_comm, <- Z.shiftl_mul_pow2 by lia.
      apply Z.shiftl_spec_low. exact Hlt. }
    rewrite Hbit. reflexivity.
  - assert (Hbit : Z.testbit b n = false).
    { rewrite <- (Z.mod_small b (2 ^ k)) by exact Hb.
      apply Z.mod_pow2_bits_high. lia. }
    rewrite Hbit. apply andb_false_r.
Qed.

(** The 32-bit word as a sum of its four bytes. *)
Lemma grbw_sum r g b w :
  is_u8 r -> is_u8 g -> is_u8 b -> is_u8 w ->
  Z.lor (Z.lor (Z.lor (shl32 (to_u32 g) 24) (shl32 (to_u32 r) 16))
               (shl32 (to_u32 b) 8)) w
  = g * 2 ^ 24 + r * 2 ^ 16 + b * 2 ^ 8 + w.
Proof.
  intros Hr Hg Hb Hw. rewrite grbw_word_spec by assumption.
  unfold is_u8 in *. rewrite !Z.shiftl_mul_pow2 by lia.
  rewrite (lor_disjoint (g * 2 ^ 24) (r * 2 ^ 16) 24); try lia;
    [|apply Z.mod_mul; lia].
  rewrite (lor_disjoint _ (b * 2 ^ 8) 16); try lia;
    [|replace (g * 2 ^ 24 + r * 2 ^ 16) with ((g * 2 ^ 8 + r) * 2 ^ 16) by lia;
      apply Z.mod_mul; lia].
  rewrite (lor_disjoint _ w 8); try lia.
  replace (g * 2 ^ 24 + r * 2 ^ 16 + b * 2 ^ 8)
    with ((g * 2 ^ 16 + r * 2 ^ 8 + b) * 2 ^ 8) by lia.
  apply Z.mod_mul. lia.
Qed.

(** The 24-bit word, aligned to the top: the same sum with a zero low
    byte. *)
Lemma grb_sum r g b :
  is_u8 r -> is_u8 g -> is_u8 b ->
  shl32 (Z.lor (Z.lor (shl32 (to_u32 g) 16) (shl32 (to_u32 r) 8)) b) 8
  = g * 2 ^ 24 + r * 2 ^ 16 + b * 2 ^ 8.
Proof.
  intros Hr Hg Hb. rewrite grb_word_spec by assumption.
  unfold is_u8 in *. rewrite !Z.shiftl_mul_pow2 by lia.
  rewrite (lor_disjoint (g * 2 ^ 16) (r * 2 ^ 8) 16); try lia;
    [|apply Z.mod_mul; lia].
  rewrite (lor_disjoint _ b 8); try lia.
  replace (g * 2 ^ 16 + r * 2 ^ 8) with ((g * 2 ^ 8 + r) * 2 ^ 8) by lia.
  apply Z.mod_mul. lia.
Qed.

Lemma grbw_word_sum s p :
  grbw_word s p
  = channel s (RGBW.g p) * 2 ^ 24 + channel s (RGBW.r p) * 2 ^ 16
    + channel s (RGBW.b p) * 2 ^ 8 + channel s (RGBW.w p).
Proof.
  cbv beta zeta delta [grbw_word]. apply grbw_sum; apply channel_is_u8.
Qed.

Lemma grb_word_sum s p :
  grb_word s p
  = channel s (RGBW.g p) * 2 ^ 24 + channel s (RGBW.r p) * 2 ^ 16
    + channel s (RGBW.b p) * 2 ^ 8.
Proof.
  cbv beta zeta delta [grb_word]. apply grb_sum; apply channel_is_u8.
Qed.

Lemma decode_sum_grbw r g b w :
  is_u8 r -> is_u8 g -> is_u8 b -> is_u8 w ->
  decode_grbw (g * 2 ^ 24 + r * 2 ^ 16 + b * 2 ^ 8 + w) = RGBW.mk r g b w.
Proof.
  unfold is_u8, decode_grbw. intros Hr Hg Hb Hw.
  change 255 with (Z.ones 8).
  rewrite !Z.land_ones, !Z.shiftr_div_pow2 by lia.
  change (2 ^ 24) with 16777216. change (2 ^ 16) with 65536.
  change (2 ^ 8) with 256.
  f_equal; Z.div_mod_to_equations; lia.
Qed.

Lemma decode_sum_grb r g b :
  is_u8 r -> is_u8 g -> is_u8 b ->
  decode_grb (g * 2 ^ 24 + r * 2 ^ 16 + b * 2 ^ 8) = RGBW.mk r g b 0.
Proof.
  unfold is_u8, decode_grb. intros Hr Hg Hb.
  change 255 with (Z.ones 8).
  rewrite !Z.land_ones, !Z.shiftr_div_pow2 by lia.
  change (2 ^ 24) with 16777216. change (2 ^ 16) with 65536.
  change (2 ^ 8) with 256.
  f_equal; Z.div_mod_to_equations; lia.
Qed.

(** ** X1 *)

(** X1. The packing loses nothing.  In any state of the pipeline the four
    bytes of a 32-bit word, read back most significant first, are the
    pipeline's G, R, B and W; the three top bytes of a 24-bit word are its
    G, R and B.  So at brightness 255 with gamma off decoding an encoded
    8-bit pixel gives the pixel back (with W dropped for the 24-bit
    variant), and two such pixels with the same 32-bit word are equal. *)
Theorem word_round_trip (s : Strip) (p q : RGBW.t) :
  decode_grbw (grbw_word s p) = on_wire s p
  /\ decode_grb (grb_word s p)
     = RGBW.mk (channel s (RGBW.r p)) (channel s (RGBW.g p))
               (channel s (RGBW.b p)) 0
  /\ (_brightness s = 255 -> _gamma_on s = false ->
      RGBW.wf p -> RGBW.wf q ->
      decode_grbw (grbw_word s p) = p
      /\ decode_grb (grb_word s p)
         = RGBW.mk (RGBW.r p) (RGBW.g p) (RGBW.b p) 0
      /\ (grbw_word s p = grbw_word s q -> p = q)).
Proof.
  assert (H1 : forall x, decode_grbw (grbw_word s x) = on_wire s x).
  { intros x. rewrite grbw_word_sum.
    apply decode_sum_grbw; apply channel_is_u8. }
  assert (H2 : forall x, decode_grb (grb_word s x)
                         = RGBW.mk (channel s (RGBW.r x)) (channel s (RGBW.g x))
                                   (channel s (RGBW.b x)) 0).
  { intros x. rewrite grb_word_sum.
    apply decode_sum_grb; apply channel_is_u8. }
  split; [apply H1|]. split; [apply H2|].
  intros Hb Hg Hp Hq.
  assert (Hid : forall x, RGBW.wf x -> on_wire s x = x).
  { intros [r g b w] (Hr & Hgr & Hbl & Hw). unfold on_wire.
    cbn [RGBW.r RGBW.g RGBW.b RGBW.w] in *.
    rewrite !channel_full_brightness by assumption. reflexivity. }
  split; [rewrite H1; apply Hid; exact Hp|].
  split.
  - rewrite H2. destruct Hp as (Hr & Hgr & Hbl & _).
    rewrite !channel_full_brightness by assumption. reflexivity.
  - intros Heq. rewrite <- (Hid p Hp), <- (Hid q Hq), <- !H1, Heq.
    reflexivity.
Qed.

(** ** X2 *)

(** X2. Shape of a frame.  When the buffer has [_count] slots,
    [build_frame] returns exactly [_count] words whatever [out] held
    before; every word fits 32 bits, and on a 24-bit strip the low byte of
    every word is zero. *)
Theorem build_frame_shape (s : Strip) (out : list Z) :
  length (_buf s) = _count s ->
  length (build_frame s out) = _count s
  /\ build_frame s out = build_frame s []
  /\ Forall (fun x => 0 <= x < 2 ^ 32) (build_frame s out)
  /\ (_rgbw s = false -> Forall (fun x => x mod 256 = 0) (build_frame s out)).
Proof.
  intros Hlen.
  split; [apply length_build_frame|].
  split; [rewrite !build_frame_fmap by exact Hlen; reflexivity|].
  rewrite build_frame_fmap by exact Hlen.
  split.
  - apply Forall_fmap, Forall_forall. intros p _. unfold compose.
    destruct (_rgbw s).
    + rewrite grbw_word_sum.
      pose proof (channel_is_u8 s (RGBW.r p)). pose proof (channel_is_u8 s (RGBW.g p)).
      pose proof (channel_is_u8 s (RGBW.b p)). pose proof (channel_is_u8 s (RGBW.w p)).
      unfold is_u8 in *. lia.
    + rewrite grb_word_sum.
      pose proof (channel_is_u8 s (RGBW.r p)). pose proof (channel_is_u8 s (RGBW.g p)).
      pose proof (channel_is_u8 s (RGBW.b p)).
      unfold is_u8 in *. lia.
  - intros ->. apply Forall_fmap, Forall_forall. intros p _. unfold compose.
    rewrite grb_word_sum.
    replace (channel s (RGBW.g p) * 2 ^ 24 + channel s (RGBW.r p) * 2 ^ 16
             + channel s (RGBW.b p) * 2 ^ 8)
      with ((channel s (RGBW.g p) * 2 ^ 16 + channel s (RGBW.r p) * 2 ^ 8
             + channel s (RGBW.b p)) * 256) by lia.
    apply Z.mod_mul. lia.
Qed.

Lemma build_frame_shape_witness :
  let s := setAll_RGB (setBrightness Sim.strip2 40) (RGB.mk 255 128 7) in
  length (build_frame s [1; 2; 3]) = 2%nat
  /\ build_frame s [1; 2; 3] = build_frame s []
  /\ Forall (fun x => 0 <= x < 2 ^ 32) (build_frame s [1; 2; 3])
  /\ (_rgbw s = false -> Forall (fun x => x mod 256 = 0) (build_frame s [1; 2; 3])).
Proof.
  intros s. apply (build_frame_shape s [1; 2; 3]). vm_compute. reflexivity.
Defined.

Lemma word_round_trip_witness :
  let s := Strip_new 16 1 true (F32.of_int 800000) pio0 (-1) in
  let p := RGBW.mk 0x10 0x20 0x30 0x40 in
  decode_grbw (grbw_word s p) = p
  /\ decode_grb (grb_word s p) = RGBW.mk 0x10 0x20 0x30 0
  /\ (grbw_word s p = grbw_word s p -> p = p).
Proof.
  intros s p.
  destruct (word_round_trip s p p) as (_ & _ & H).
  apply H.
  - reflexivity.
  - reflexivity.
  - vm_compute. repeat split; discriminate.
  - vm_compute. repeat split; discriminate.
Defined.

Lemma word_of_setPixel s i c p :
  grbw_word (setPixel_RGBW s i c) p = grbw_word s p
  /\ grb_word (setPixel_RGBW s i c) p = grb_word s p.
Proof.
  unfold setPixel_RGBW. destruct (_count s <=? i)%nat; split; reflexivity.
Qed.

(** ** X3 *)

(** X3. One pixel, one word.  For [i < _count], [setPixel(i, c)] followed by
    [build_frame] gives the frame of the old buffer with word [i] replaced
    by the word of [c] and every other word as it was; the two RGB
    overloads do the same with [W = 0]. *)
Theorem setPixel_changes_one_word (s : Strip) (i : nat) (c : RGBW.t)
    (c3 : RGB.t) (out : list Z) :
  (i < _count s)%nat ->
  length (_buf s) = _count s ->
  let word := if _rgbw s then grbw_word s else grb_word s in
  build_frame (setPixel_RGBW s i c) out = <[i := word c]> (build_frame s out)
  /\ build_frame (setPixel_RGB s i c3) out
     = <[i := word (RGBW.mk (RGB.r c3) (RGB.g c3) (RGB.b c3) 0)]>
         (build_frame s out)
  /\ setPixel_rgb s i (RGB.r c3) (RGB.g c3) (RGB.b c3) = setPixel_RGB s i c3
  /\ _buf (setPixel_RGBW s i c) !! i = Some c
  /\ length (_buf (setPixel_RGBW s i c)) = _count s.
Proof.
  intros Hi Hlen word.
  assert (Hgen : forall c', build_frame (setPixel_RGBW s i c') out
                            = <[i := word c']> (build_frame s out)).
  { intros c'.
    assert (Hlen' : length (_buf (setPixel_RGBW s i c')) = _count (setPixel_RGBW s i c')).
    { unfold setPixel_RGBW. destruct (_count s <=? i)%nat; [exact Hlen|].
      fields. rewrite length_insert. exact Hlen. }
    rewrite (build_frame_fmap _ out Hlen'), (build_frame_fmap s out Hlen).
    assert (Hrgbw : _rgbw (setPixel_RGBW s i c') = _rgbw s).
    { unfold setPixel_RGBW. destruct (_count s <=? i)%nat; reflexivity. }
    rewrite Hrgbw.
    assert (Hbuf : _buf (setPixel_RGBW s i c') = <[i := c']> (_buf s)).
    { unfold setPixel_RGBW.
      destruct (_count s <=? i)%nat eqn:E; [apply Nat.leb_le in E; lia|].
      reflexivity. }
    rewrite Hbuf, list_fmap_insert. subst word.
    destruct (_rgbw s).
    - rewrite (proj1 (word_of_setPixel s i c' c')). f_equal.
      apply list_fmap_ext. intros j p _.
      apply (proj1 (word_of_setPixel s i c' p)).
    - rewrite (proj2 (word_of_setPixel s i c' c')). f_equal.
      apply list_fmap_ext. intros j p _.
      apply (proj2 (word_of_setPixel s i c' p)). }
  split; [apply Hgen|].
  split; [apply (Hgen (RGBW.mk (RGB.r c3) (RGB.g c3) (RGB.b c3) 0))|].
  split; [reflexivity|].
  destruct (setPixel_RGBW_in_range s i c Hi Hlen) as (H1 & _ & H3).
  split; [exact H1|]. rewrite H3. exact Hlen.
Qed.

Lemma setPixel_changes_one_word_witness :
  let s := strip Sim.ready in
  build_frame (setPixel_RGBW s 1 (RGBW.mk 1 2 3 4)) []
  = [0xFF0000; 0x02010300].
Proof.
  intros s.
  destruct (setPixel_changes_one_word s 1 (RGBW.mk 1 2 3 4) (RGB.mk 1 2 3) [])
    as (H & _).
  - vm_compute. lia.
  - vm_compute. reflexivity.
  - rewrite H. vm_compute. reflexivity.
Defined.

(** ** X4 *)

(** X4. After [setAll(c)] the frame is [_count] copies of the word of [c]
    ([W = 0] for the RGB overload), after [clear()] it is [_count] copies
    of the word of black, and [setAll] forgets every earlier
    [setPixel]. *)
Theorem setAll_identical_words (s : Strip) (c : RGBW.t) (c3 : RGB.t)
    (i : nat) (c' : RGBW.t) (out : list Z) :
  length (_buf s) = _count s ->
  let word := if _rgbw s then grbw_word s else grb_word s in
  build_frame (setAll_RGBW s c) out = replicate (_count s) (word c)
  /\ build_frame (setAll_RGB s c3) out
     = replicate (_count s)
         (word (RGBW.mk (RGB.r c3) (RGB.g c3) (RGB.b c3) 0))
  /\ build_frame (clear s) out
     = replicate (_count s) (word (RGBW.mk 0 0 0 0))
  /\ setAll_RGBW (setPixel_RGBW s i c') c = setAll_RGBW s c.
Proof.
  intros Hlen word.
  assert (Hgen : forall x, build_frame (setAll_RGBW s x) out
                           = replicate (_count s) (word x)).
  { intros x.
    rewrite build_frame_fmap by (fields; rewrite length_replicate; exact Hlen).
    fields. rewrite Hlen, fmap_replicate. subst word.
    destruct (_rgbw s); reflexivity. }
  split; [apply Hgen|]. split; [apply Hgen|]. split; [apply Hgen|].
  unfold setPixel_RGBW. destruct (_count s <=? i)%nat; [reflexivity|].
  unfold setAll_RGBW, set_buf. fields. rewrite length_insert. reflexivity.
Qed.

Lemma setAll_identical_words_witness :
  build_frame
    (setAll_RGB (Strip_new 16 3 false (F32.of_int 800000) pio0 (-1))
                (RGB.mk 255 0 0)) []
  = [0xFF0000; 0xFF0000; 0xFF0000].
Proof.
  destruct (setAll_identical_words
              (Strip_new 16 3 false (F32.of_int 800000) pio0 (-1))
              (RGBW.mk 0 0 0 0) (RGB.mk 255 0 0) 0 (RGBW.mk 0 0 0 0) [])
    as (_ & H & _).
  - vm_compute. reflexivity.
  - rewrite H. vm_compute. reflexivity.
Defined.

(** ** X5 *)

(** X5. On a 24-bit strip the stored W never reaches the wire: two buffers
    that agree on R, G and B in every slot give the same frame. *)
Theorem rgb_frame_ignores_w (s : Strip) (buf' : list RGBW.t) (out : list Z) :
  _rgbw s = false ->
  length (_buf s) = _count s ->
  Forall2 same_rgb (_buf s) buf' ->
  build_frame (set_buf s buf') out = build_frame s out.
Proof.
  intros Hrgb Hlen Hsame.
  assert (Hlen' : length (_buf (set_buf s buf')) = _count (set_buf s buf')).
  { fields. rewrite <- (Forall2_length _ _ _ Hsame). exact Hlen. }
  rewrite (build_frame_fmap _ out Hlen'), (build_frame_fmap s out Hlen).
  fields. rewrite Hrgb. clear Hlen Hlen'.
  induction Hsame as [|p q l l' (Hr & Hg & Hb) _ IH]; [reflexivity|].
  rewrite !fmap_cons. f_equal; [|exact IH].
  cbv beta zeta delta [grb_word]. unfold channel. fields.
  rewrite Hr, Hg, Hb. reflexivity.
Qed.

Lemma rgb_frame_ignores_w_witness :
  build_frame (set_buf Sim.strip2 [RGBW.mk 1 2 3 200; RGBW.mk 4 5 6 100]) []
  = build_frame (set_buf Sim.strip2 [RGBW.mk 1 2 3 0; RGBW.mk 4 5 6 0]) [].
Proof.
  symmetry.
  apply (rgb_frame_ignores_w
           (set_buf Sim.strip2 [RGBW.mk 1 2 3 200; RGBW.mk 4 5 6 100])
           [RGBW.mk 1 2 3 0; RGBW.mk 4 5 6 0] []).
  - reflexivity.
  - vm_compute. reflexivity.
  - repeat constructor.
Defined.

(* ===================================================================== *)
(** * Further properties of the colour pipeline *)
(* ===================================================================== *)

Lemma scale_u8_at_zero v : scale_u8 v 0 = 0.
Proof.
  unfold scale_u8. change (to_u16 0) with 0. rewrite Z.mul_0_r. reflexivity.
Qed.

(** ** X6 *)

(** X6. Brightness 0 blanks the strip: after [setBrightness(0)] every word
    of the frame is 0, whatever the buffer holds and whether gamma is on
    or off. *)
Theorem brightness_zero_blanks (s : Strip) (out : list Z) :
  length (_buf s) = _count s ->
  build_frame (setBrightness s 0) out = replicate (_count s) 0.
Proof.
  intros Hlen.
  rewrite build_frame_fmap by exact Hlen. fields.
  assert (Hc : forall c, channel (set_brightness s 0) c = 0).
  { intros c. unfold channel. fields. apply scale_u8_at_zero. }
  rewrite <- Hlen. clear Hlen.
  induction (_buf s) as [|p l IH]; [reflexivity|].
  rewrite fmap_cons. cbn [length replicate]. f_equal; [|exact IH].
  destruct (_rgbw s).
  - rewrite grbw_word_sum, !Hc. reflexivity.
  - rewrite grb_word_sum, !Hc. reflexivity.
Qed.

Lemma brightness_zero_blanks_witness :
  build_frame (setBrightness (strip Sim.ready) 0) [] = [0; 0].
Proof.
  rewrite (brightness_zero_blanks (strip Sim.ready) []).
  - reflexivity.
  - vm_compute. reflexivity.
Defined.

(** ** X7 *)

(** X7. Brightness only dims.  With gamma off, an 8-bit brightness and
    8-bit channel values, the value that goes on the wire never exceeds
    the stored one, and a larger stored value never gives a smaller wire
    value. *)
Theorem brightness_only_dims (s : Strip) (c c' : Z) :
  _gamma_on s = false ->
  is_u8 (_brightness s) ->
  is_u8 c -> is_u8 c' -> c <= c' ->
  channel s c <= c /\ channel s c <= channel s c'.
Proof.
  intros Hg Hb Hc Hc' Hle. unfold channel. rewrite Hg.
  rewrite !scale_u8_eq by assumption.
  unfold is_u8 in *. split.
  - assert ((c * _brightness s + 127) / 255 < c + 1)
      by (apply Z.div_lt_upper_bound; nia).
    lia.
  - apply Z.div_le_mono; nia.
Qed.

Lemma brightness_only_dims_witness :
  let s := setBrightness Sim.strip2 128 in
  channel s 200 <= 200 /\ channel s 200 <= channel s 201.
Proof.
  intros s. apply (brightness_only_dims s 200 201).
  - reflexivity.
  - vm_compute. split; [discriminate|reflexivity].
  - unfold is_u8. lia.
  - unfold is_u8. lia.
  - lia.
Defined.

Lemma gamma_entry_is_u8 powf i : is_u8 (gamma_entry powf i).
Proof.
  unfold gamma_entry, F32.to_uint8.
  destruct (F32.round _); try (unfold is_u8; lia).
  apply to_u8_is_u8.
Qed.

(** ** X8 *)

(** X8. The last [enableGamma] call decides.  The table a call writes does
    not depend on what the table held: two calls in a row leave the object
    exactly as the second call alone would.  After [enableGamma(true)] the
    table holds the 256 values of the curve, each of them 8-bit, and
    neither call touches the buffer or the brightness. *)
Theorem enableGamma_last_call_wins
    (powf : F32.float -> F32.float -> F32.float) (s : Strip) (on1 on2 : bool) :
  length (_gam s) = 256%nat ->
  enableGamma powf (enableGamma powf s on1) on2 = enableGamma powf s on2
  /\ _gam (enableGamma powf s true) = gamma_table powf
  /\ Forall is_u8 (_gam (enableGamma powf s on2))
  /\ _buf (enableGamma powf s on2) = _buf s
  /\ _brightness (enableGamma powf s on2) = _brightness s.
Proof.
  intros Hlen.
  assert (Htab : forall on, _gam (enableGamma powf s on)
                            = if on then gamma_table powf else identity_table).
  { intros on. unfold enableGamma. destruct on; fields;
      apply fill_gam_fmap; exact Hlen. }
  split.
  - unfold enableGamma.
    destruct on1, on2; fields; unfold set_gam, set_gamma_on; fields;
      f_equal;
      rewrite !fill_gam_fmap by (rewrite ?length_fill_gam; exact Hlen);
      reflexivity.
  - split; [apply (Htab true)|].
    split.
    + rewrite Htab. destruct on2; unfold gamma_table, identity_table;
        apply Forall_fmap, Forall_forall; intros i _; unfold compose.
      * apply gamma_entry_is_u8.
      * apply to_u8_is_u8.
    + unfold enableGamma. destruct on2; split; reflexivity.
Qed.

Lemma enableGamma_last_call_wins_witness :
  enableGamma Sim.powf (enableGamma Sim.powf Sim.strip2 false) true
  = enableGamma Sim.powf Sim.strip2 true.
Proof.
  apply (enableGamma_last_call_wins Sim.powf Sim.strip2 false true).
  vm_compute. reflexivity.
Defined.

(** ** X9 *)

(** X9. The constructor establishes the invariant of the object (the buffer
    has [_count] slots of 8-bit channels and the table is the one
    [_gamma_on] announces) and [setAll], [clear], [setPixel],
    [setBrightness] and [enableGamma] keep it when they are given 8-bit
    colours; [size()] is then the length of the buffer. *)
Theorem Strip_inv_kept
    (powf : F32.float -> F32.float -> F32.float) (s : Strip)
    (i : nat) (c3 : RGB.t) (c4 : RGBW.t) (br : Z) (on : bool) :
  Strip_inv powf s ->
  RGB.wf c3 -> RGBW.wf c4 ->
  (forall pin count rgbw freq pio sm,
     Strip_inv powf (Strip_new pin count rgbw freq pio sm))
  /\ Strip_inv powf (setAll_RGB s c3)
  /\ Strip_inv powf (setAll_RGBW s c4)
  /\ Strip_inv powf (clear s)
  /\ Strip_inv powf (setPixel_RGB s i c3)
  /\ Strip_inv powf (setPixel_rgb s i (RGB.r c3) (RGB.g c3) (RGB.b c3))
  /\ Strip_inv powf (setPixel_RGBW s i c4)
  /\ Strip_inv powf (setBrightness s br)
  /\ Strip_inv powf (enableGamma powf s on)
  /\ size s = length (_buf s).
Proof.
  intros Hinv H3 H4.
  split; [intros; apply Strip_new_inv|].
  split; [apply setAll_RGB_inv; assumption|].
  split; [apply setAll_RGBW_inv; assumption|].
  split; [apply clear_inv; assumption|].
  split; [apply setPixel_RGB_inv; assumption|].
  split; [apply setPixel_RGB_inv; assumption|].
  split; [apply setPixel_RGBW_inv; assumption|].
  split; [apply setBrightness_inv; assumption|].
  split; [apply enableGamma_inv; assumption|].
  unfold size. symmetry. apply (inv_length _ _ Hinv).
Qed.

Lemma Strip_inv_kept_witness :
  Strip_inv Sim.powf (setPixel_RGBW Sim.strip2 1 (RGBW.mk 9 8 7 6))
  /\ Strip_inv Sim.powf (enableGamma Sim.powf Sim.strip2 true).
Proof.
  destruct (Strip_inv_kept Sim.powf Sim.strip2 1 (RGB.mk 1 2 3)
              (RGBW.mk 9 8 7 6) 10 true)
    as (_ & _ & _ & _ & _ & _ & H1 & _ & H2 & _).
  - split.
    + vm_compute. reflexivity.
    + vm_compute. repeat constructor; discriminate.
    + vm_compute. reflexivity.
  - vm_compute. repeat split; discriminate.
  - vm_compute. repeat split; discriminate.
  - split; assumption.
Defined.

(* ===================================================================== *)
(** * What the sending methods do *)
(* ===================================================================== *)

Lemma bind_assoc {hw A B C} (m : M hw A) (k1 : A -> M hw B)
    (k2 : B -> M hw C) w :
  bind (bind m k1) k2 w = bind m (fun a => bind (k1 a) k2) w.
Proof. unfold bind. destruct (m w) as [[a w']| | |]; reflexivity. Qed.

Ltac world :=
  cbn [strip s_offset_pio0 s_offset_pio1 heap hardware trace
       set_hardware set_heap record] in *.

(** The non-DMA loop: one [pio_sm_put_blocking] per word, in order. *)
Lemma for_each_put_run {hw} {P : Platform hw} p sm (l : list Z)
    (w : World hw) :
  exists w', for_each l (fun x => cmd (pio_sm_put_blocking p sm x)) w
             = Ret (tt, w')
             /\ trace w' = trace w ++ (put_call p sm <$> l)
             /\ heap w' = heap w /\ strip w' = strip w.
Proof.
  revert w. induction l as [|x l IH]; intros w; cbn [for_each].
  - exists w. rewrite app_nil_r. repeat split; reflexivity.
  - rewrite (bind_ret (cmd _) _ w tt _ eq_refl).
    destruct (IH (set_hardware (record w (Cmd (pio_sm_put_blocking p sm x)))
                    (sdk_cmd_exec (pio_sm_put_blocking p sm x) (hardware w))))
      as (w' & E & Ht & Hh & Hs).
    world. exists w'. split; [exact E|].
    rewrite Ht, Hh, Hs, fmap_cons, <- app_assoc. repeat split; reflexivity.
Qed.

(** The fallback loop of [start_dma]: the words are read through the
    pointer and pushed one by one, in order. *)
Lemma for_each_load_put_run {hw} {P : Platform hw} p sm a (l2 : list Z) :
  forall (l1 : list Z) (w : World hw),
    heap w !! a = Some (l1 ++ l2) ->
    exists w', for_each (seq (length l1) (length l2))
                 (fun i => bind (load (Vec a) i)
                             (fun x => cmd (pio_sm_put_blocking p sm x))) w
               = Ret (tt, w')
               /\ trace w' = trace w ++ (put_call p sm <$> l2)
               /\ heap w' = heap w /\ strip w' = strip w.
Proof.
  induction l2 as [|x l2 IH]; intros l1 w Ha; cbn [for_each seq length].
  - exists w. rewrite app_nil_r. repeat split; reflexivity.
  - assert (Hload : load (Vec a) (length l1) w = Ret (x, w)).
    { unfold load. rewrite Ha, list_lookup_middle by reflexivity.
      reflexivity. }
    rewrite (bind_ret _ _ w tt
               (set_hardware (record w (Cmd (pio_sm_put_blocking p sm x)))
                  (sdk_cmd_exec (pio_sm_put_blocking p sm x) (hardware w))))
      by (rewrite (bind_ret _ _ _ _ _ Hload); reflexivity).
    destruct (IH (l1 ++ [x])
                (set_hardware (record w (Cmd (pio_sm_put_blocking p sm x)))
                   (sdk_cmd_exec (pio_sm_put_blocking p sm x) (hardware w))))
      as (w' & E & Ht & Hh & Hs).
    { world. rewrite <- app_assoc. exact Ha. }
    rewrite length_app, Nat.add_1_r in E.
    world. exists w'. split; [exact E|].
    rewrite Ht, Hh, Hs, fmap_cons, <- app_assoc. repeat split; reflexivity.
Qed.

(** Up to the point where the words are handed over, [show] and
    [showAsync] do the same: the frame is built in a fresh local vector. *)
Lemma frame_built {hw} {P : Platform hw} (w : World hw) :
  let a := fresh (dom (heap w)) in
  let w2 := set_heap (set_heap w (<[a := []]> (heap w)))
              (<[a := build_frame (strip w) []]> (<[a := []]> (heap w))) in
  heap w !! a = None
  /\ heap w2 !! a = Some (build_frame (strip w) [])
  /\ delete a (heap w2) = heap w
  /\ vector_get a w2 = Ret (build_frame (strip w) [], w2)
  /\ (forall A (k : nat -> M hw A),
        bind vector_new k w = k a (set_heap w (<[a := []]> (heap w))))
  /\ (forall A (k : unit -> M hw A),
        bind (vector_modify a (build_frame (strip w))) k
          (set_heap w (<[a := []]> (heap w)))
        = k tt w2).
Proof.
  intros a w2.
  assert (Hfresh : heap w !! a = None)
    by (apply not_elem_of_dom, is_fresh).
  assert (Ha : heap w2 !! a = Some (build_frame (strip w) []))
    by (subst w2; world; apply lookup_insert_eq).
  split; [exact Hfresh|]. split; [exact Ha|].
  split.
  { subst w2. world. rewrite !delete_insert_eq. apply delete_id, Hfresh. }
  split; [apply vector_get_ok, Ha|].
  split.
  - intros A k. apply (bind_ret vector_new k w a _ eq_refl).
  - intros A k. apply bind_ret.
    apply (vector_modify_ok a _ []). world. apply lookup_insert_eq.
Qed.

(** ** X10 *)

(** X10. Without a DMA channel (none claimed, or a build without DMA)
    [show] needs no polling: it pushes the words of the frame into the
    FIFO one by one in buffer order, then sleeps 80 microseconds, and
    returns with its local vector freed and the object untouched.
    [showAsync] pushes the same words and returns without the sleep. *)
Theorem show_without_channel {hw} (P : Platform hw) (w : World hw)
    (fuel : nat) :
  WS2812_USE_DMA = false \/ _dma_ch (strip w) < 0 ->
  let s := strip w in
  let puts := put_call (_pio s) (to_u32 (_sm s)) <$> build_frame s [] in
  (exists w', show fuel w = Ret (tt, w')
              /\ trace w' = trace w ++ puts ++ [Cmd (sleep_us 80)]
              /\ heap w' = heap w /\ strip w' = strip w)
  /\ (exists w', showAsync w = Ret (tt, w')
                 /\ trace w' = trace w ++ puts
                 /\ heap w' = heap w /\ strip w' = strip w).
Proof.
  intros Hmode s puts. subst s.
  set (s := strip w) in *.
  destruct (frame_built w) as (Hfresh & Ha & Hdel & Hget & Hnew & Hmod).
  set (a := fresh (dom (heap w))) in *.
  set (w2 := set_heap (set_heap w (<[a := []]> (heap w))) _) in *.
  (* the words go out the same way in both methods *)
  assert (Hsend : exists w3,
            trace w3 = trace w ++ puts /\ heap w3 = heap w2
            /\ strip w3 = strip w
            /\ (forall A (k : unit -> M hw A),
                  bind (if WS2812_USE_DMA
                        then bind (vector_get a)
                               (fun l => start_dma (Vec a) (length l))
                        else bind (vector_get a)
                               (fun l => for_each l (fun x =>
                                  cmd (pio_sm_put_blocking (_pio s)
                                         (to_u32 (_sm s)) x)))) k w2
                  = k tt w3)
            /\ (forall A (k : unit -> M hw A),
                  bind (if WS2812_USE_DMA
                        then bind (vector_get a)
                               (fun l => bind (start_dma (Vec a) (length l))
                                  (fun _ => if 0 <=? _dma_ch s
                                            then spin fuel (_dma_ch s)
                                            else ret tt))
                        else bind (vector_get a)
                               (fun l => for_each l (fun x =>
                                  cmd (pio_sm_put_blocking (_pio s)
                                         (to_u32 (_sm s)) x)))) k w2
                  = k tt w3)).
  { destruct WS2812_USE_DMA eqn:Hdma.
    - destruct Hmode as [Hno|Hneg]; [discriminate|].
      destruct (for_each_load_put_run (_pio s) (to_u32 (_sm s)) a
                  (build_frame s []) [] w2 Ha) as (w3 & E & Ht & Hh & Hs).
      cbn [length] in E.
      assert (Hstart : start_dma (Vec a) (length (build_frame s [])) w2
                       = Ret (tt, w3)).
      { unfold start_dma. rewrite (bind_ret this _ w2 (strip w2) w2 eq_refl).
        subst w2. world. fold s.
        apply Z.ltb_lt in Hneg. rewrite Hneg. exact E. }
      exists w3. split; [exact Ht|]. split; [exact Hh|]. split; [exact Hs|].
      split; intros A k.
      + apply bind_ret. rewrite (bind_ret _ _ _ _ _ Hget). exact Hstart.
      + apply bind_ret. rewrite (bind_ret _ _ _ _ _ Hget).
        rewrite (bind_ret _ _ _ _ _ Hstart).
        apply Z.leb_gt in Hneg. rewrite Hneg. reflexivity.
    - destruct (for_each_put_run (_pio s) (to_u32 (_sm s))
                  (build_frame s []) w2) as (w3 & E & Ht & Hh & Hs).
      exists w3. split; [exact Ht|]. split; [exact Hh|]. split; [exact Hs|].
      split; intros A k; apply bind_ret;
        rewrite (bind_ret _ _ _ _ _ Hget); exact E. }
  destruct Hsend as (w3 & Ht & Hh & Hs & Hasync & Hsync).
  split.
  - eexists. split.
    + unfold show. rewrite (bind_ret this _ w (strip w) w eq_refl).
      fold s. rewrite Hnew, Hmod, Hsync.
      rewrite (bind_ret (cmd _) _ w3 tt _ eq_refl). reflexivity.
    + world. rewrite Ht, Hh, Hs, Hdel, <- app_assoc.
      repeat split; reflexivity.
  - eexists. split.
    + unfold showAsync. rewrite (bind_ret this _ w (strip w) w eq_refl).
      fold s. rewrite Hnew, Hmod, Hasync. reflexivity.
    + world. rewrite Ht, Hh, Hs, Hdel. repeat split; reflexivity.
Qed.

Lemma show_without_channel_witness :
  exists w',
    show 0 Sim.ready_no_dma = Ret (tt, w')
    /\ trace w'
       = [put_call pio0 0 0xFF0000; put_call pio0 0 0xFF0000;
          put_call pio0 0 0xFF0000; Cmd (sleep_us 80)].
Proof.
  destruct (show_without_channel Sim.platform Sim.ready_no_dma 0)
    as ((w' & E & Ht & _) & _).
  - right. vm_compute. reflexivity.
  - exists w'. split; [exact E|]. rewrite Ht. vm_compute. reflexivity.
Defined.

(** ** X11 *)

(** X11. With a DMA channel, whenever [show] returns it has made exactly
    three SDK calls: the read address, the triggered transfer count of
    [_count] words, and, only after the channel was seen idle, the 80
    microsecond sleep.  The CPU pushes no word itself, the local vector is
    freed and the object is untouched. *)
Theorem show_with_channel {hw} (P : Platform hw) (w : World hw)
    (fuel : nat) (w' : World hw) :
  WS2812_USE_DMA = true ->
  0 <= _dma_ch (strip w) ->
  show fuel w = Ret (tt, w') ->
  exists a h,
    trace w'
    = trace w
      ++ [Cmd (dma_channel_set_read_addr (_dma_ch (strip w)) (Vec a) false);
          Cmd (dma_channel_set_trans_count (_dma_ch (strip w))
                 (to_u32 (Z.of_nat (_count (strip w)))) true);
          Cmd (sleep_us 80)]
    /\ dma_channel_is_busy (_dma_ch (strip w)) h = false
    /\ hardware w' = sdk_cmd_exec (sleep_us 80) h
    /\ heap w' = heap w
    /\ strip w' = strip w.
Proof.
  intros Hdma Hch H.
  destruct (frame_built w) as (Hfresh & Ha & Hdel & Hget & Hnew & Hmod).
  set (a := fresh (dom (heap w))) in *.
  set (w2 := set_heap (set_heap w (<[a := []]> (heap w))) _) in *.
  unfold show in H. rewrite (bind_ret this _ w (strip w) w eq_refl) in H.
  rewrite Hnew, Hmod, Hdma in H.
  rewrite bind_assoc, (bind_ret _ _ _ _ _ Hget), bind_assoc in H.
  rewrite (bind_ret _ _ _ _ _ (start_dma_channel (Vec a) _ w2 Hch)) in H.
  apply Z.leb_le in Hch. rewrite Hch in H.
  apply bind_ret_inv in H as (u & w4 & Hspin & H).
  apply spin_ret_inv in Hspin as (Hidle & Hs4 & Hh4 & Ht4).
  rewrite (bind_ret (cmd _) _ w4 tt _ eq_refl) in H.
  unfold vector_delete in H. inversion H. subst w'. clear H.
  exists a, (hardware w4). world.
  rewrite Ht4, Hh4, Hs4. subst w2. world.
  rewrite length_build_frame, <- !app_assoc.
  split; [reflexivity|]. split; [exact Hidle|]. split; [reflexivity|].
  split; [exact Hdel|reflexivity].
Qed.

Lemma show_with_channel_witness :
  exists w',
    show 3 Sim.ready = Ret (tt, w')
    /\ trace w'
       = [Cmd (dma_channel_set_read_addr 0 (Vec 0) false);
          Cmd (dma_channel_set_trans_count 0 2 true);
          Cmd (sleep_us 80)]
    /\ heap w' = ∅.
Proof.
  destruct (show 3 Sim.ready) as [[[] w']| | |] eqn:E;
    try (vm_compute in E; discriminate).
  destruct (show_with_channel Sim.platform Sim.ready 3 w' eq_refl
              ltac:(vm_compute; discriminate) E)
    as (a & h & Ht & _ & _ & Hh & _).
  exists w'. split; [reflexivity|]. split; [|exact Hh].
  vm_compute in E. inversion E. reflexivity.
Defined.

(** With a channel, [show] starts its sleep from a hardware state in
    which the channel is idle. *)
Lemma show_channel_hardware {hw} {P : Platform hw} (w : World hw)
    (fuel : nat) (w' : World hw) :
  WS2812_USE_DMA = true ->
  0 <= _dma_ch (strip w) ->
  show fuel w = Ret (tt, w') ->
  exists h, dma_channel_is_busy (_dma_ch (strip w)) h = false
            /\ hardware w' = sdk_cmd_exec (sleep_us 80) h.
Proof.
  intros Hdma Hch H.
  destruct (frame_built w) as (_ & _ & _ & Hget & Hnew & Hmod).
  set (a := fresh (dom (heap w))) in *.
  set (w2 := set_heap (set_heap w (<[a := []]> (heap w))) _) in *.
  unfold show in H. rewrite (bind_ret this _ w (strip w) w eq_refl) in H.
  rewrite Hnew, Hmod, Hdma in H.
  rewrite bind_assoc, (bind_ret _ _ _ _ _ Hget), bind_assoc in H.
  rewrite (bind_ret _ _ _ _ _ (start_dma_channel (Vec a) _ w2 Hch)) in H.
  apply Z.leb_le in Hch. rewrite Hch in H.
  apply bind_ret_inv in H as (u & w4 & Hspin & H).
  apply spin_ret_inv in Hspin as (Hidle & _).
  rewrite (bind_ret (cmd _) _ w4 tt _ eq_refl) in H.
  unfold vector_delete in H. inversion H.
  exists (hardware w4). split; [exact Hidle|reflexivity].
Qed.

(** ** X12 *)

(** X12. When [show] returns, [busy()] is false, with or without a DMA
    channel, on any platform where an idle channel stays idle during
    [sleep_us]. *)
Theorem show_leaves_idle {hw} (P : Platform hw) (Hidle : idle_stays_idle P)
    (w : World hw) (fuel : nat) (w' : World hw) :
  show fuel w = Ret (tt, w') -> busy w' = false.
Proof.
  intros H.
  pose proof (show_same_strip fuel w tt w' H) as Hs. unfold same_strip in Hs.
  unfold busy. rewrite Hs.
  destruct WS2812_USE_DMA eqn:Hdma; [|reflexivity].
  destruct (0 <=? _dma_ch (strip w)) eqn:Hch; [|reflexivity].
  apply Z.leb_le in Hch.
  destruct (show_channel_hardware w fuel w' Hdma Hch H) as (h & Hh & Hw').
  cbn [andb]. rewrite Hw'. apply Hidle. exact Hh.
Qed.

Lemma show_leaves_idle_witness :
  exists w', show 3 Sim.ready = Ret (tt, w') /\ busy w' = false.
Proof.
  destruct (show 3 Sim.ready) as [[[] w']| | |] eqn:E;
    try (vm_compute in E; discriminate).
  exists w'. split; [reflexivity|].
  exact (show_leaves_idle Sim.platform sim_idle_stays_idle Sim.ready 3 w' E).
Defined.

(** ** X13 *)

(** X13. [wait] transmits nothing: whenever it returns, its only SDK call
    was [sleep_us(80)], made after the channel (if any) was seen idle, and
    the object and the heap are what they were. *)
Theorem wait_only_sleeps {hw} (P : Platform hw) (w : World hw) (fuel : nat)
    (w' : World hw) :
  wait fuel w = Ret (tt, w') ->
  trace w' = trace w ++ [Cmd (sleep_us 80)]
  /\ strip w' = strip w
  /\ heap w' = heap w
  /\ exists h, hardware w' = sdk_cmd_exec (sleep_us 80) h
               /\ (WS2812_USE_DMA = true -> 0 <= _dma_ch (strip w) ->
                   dma_channel_is_busy (_dma_ch (strip w)) h = false).
Proof.
  intros H. unfold wait in H.
  rewrite (bind_ret this _ w (strip w) w eq_refl) in H.
  apply bind_ret_inv in H as (u & w1 & Hs & H).
  unfold cmd in H. inversion H. subst w'. clear H. world.
  destruct (WS2812_USE_DMA && (0 <=? _dma_ch (strip w))) eqn:Hc.
  - apply spin_ret_inv in Hs as (Hidle & Hs1 & Hh1 & Ht1).
    rewrite Ht1, Hs1, Hh1. repeat split; try reflexivity.
    exists (hardware w1). split; [reflexivity|]. intros _ _. exact Hidle.
  - unfold ret in Hs. inversion Hs. subst w1. repeat split; try reflexivity.
    exists (hardware w). split; [reflexivity|]. intros Hdma Hch.
    rewrite Hdma in Hc. apply Z.leb_le in Hch. rewrite Hch in Hc.
    discriminate.
Qed.

Lemma wait_only_sleeps_witness :
  exists w', wait 3 Sim.in_flight = Ret (tt, w')
             /\ trace w' = [Cmd (sleep_us 80)].
Proof.
  destruct (wait 3 Sim.in_flight) as [[[] w']| | |] eqn:E;
    try (vm_compute in E; discriminate).
  exists w'. split; [reflexivity|].
  destruct (wait_only_sleeps Sim.platform Sim.in_flight 3 w' E) as (Ht & _).
  rewrite Ht. reflexivity.
Defined.

(* ===================================================================== *)
(** * [end] *)
(* ===================================================================== *)


(* ===================================================================== *)
(** * [end] *)
(* ===================================================================== *)

(** Runs a method whose branches are decided by the given equations. *)
Ltac crank Hdma Hch Hsm :=
  repeat first [ progress rewrite ?Hdma, ?Hch, ?Hsm
               | progress world
               | progress fields
               | progress change (0 <=? -1) with false
               | progress cbv beta iota ].

(** ** X14 *)

(** X14. [end] always returns.  It aborts and then unclaims the DMA
    channel if one is held, disables and then unclaims the state machine
    if one is held, and makes no other call, so nothing is transmitted.
    Afterwards [_sm] is negative, and so is [_dma_ch] in the DMA build;
    the buffer, the pipeline settings and the heap are untouched, and a
    second [end] does nothing at all. *)
Theorem end_releases {hw} (P : Platform hw) (w : World hw) :
  let s := strip w in
  exists w',
    end_ w = Ret (tt, w')
    /\ trace w'
       = trace w
         ++ (if WS2812_USE_DMA && (0 <=? _dma_ch s)
             then [Cmd (dma_channel_abort (_dma_ch s));
                   Cmd (dma_channel_unclaim (_dma_ch s))]
             else [])
         ++ (if 0 <=? _sm s
             then [Cmd (pio_sm_set_enabled (_pio s) (to_u32 (_sm s)) false);
                   Cmd (pio_sm_unclaim (_pio s) (to_u32 (_sm s)))]
             else [])
    /\ _sm (strip w') < 0
    /\ (WS2812_USE_DMA = true -> _dma_ch (strip w') < 0)
    /\ _buf (strip w') = _buf s
    /\ same_settings s (strip w')
    /\ heap w' = heap w
    /\ end_ w' = Ret (tt, w').
Proof.
  intros s. subst s.
  destruct WS2812_USE_DMA eqn:Hdma;
    destruct (0 <=? _dma_ch (strip w)) eqn:Hch;
    destruct (0 <=? _sm (strip w)) eqn:Hsm;
    (eexists; split;
     [ unfold end_, stop_dma, bind, this, cmd, update, ret;
       crank Hdma Hch Hsm; reflexivity
     | ]);
    world; fields; cbn [andb app]; rewrite <- ?app_assoc, ?app_nil_r;
    (split; [reflexivity|]);
    (split; [first [reflexivity | apply Z.leb_gt; exact Hsm]|]);
    (split; [first [discriminate | intros _; reflexivity
                   | intros _; apply Z.leb_gt; exact Hch]|]);
    (split; [reflexivity|]);
    (split; [repeat split; reflexivity|]);
    (split; [reflexivity|]);
    unfold end_, stop_dma, bind, this, cmd, update, ret;
    crank Hdma Hch Hsm; reflexivity.
Qed.

Lemma end_releases_witness :
  exists w',
    end_ Sim.ready = Ret (tt, w')
    /\ trace w'
       = [Cmd (dma_channel_abort 0); Cmd (dma_channel_unclaim 0);
          Cmd (pio_sm_set_enabled pio0 0 false); Cmd (pio_sm_unclaim pio0 0)]
    /\ end_ w' = Ret (tt, w').
Proof.
  destruct (end_releases Sim.platform Sim.ready)
    as (w' & E & Ht & _ & _ & _ & _ & _ & Hagain).
  exists w'. split; [exact E|]. split; [|exact Hagain].
  rewrite Ht. vm_compute. reflexivity.
Defined.

(* ===================================================================== *)
(** * More about [begin] *)
(* ===================================================================== *)

(** What a primitive step does to the state is all a relation has to be
    checked against. *)
Lemma respects_query {hw} {P : Platform hw} (R : World hw -> World hw -> Prop)
    q :
  (forall w h, R w (set_hardware (record w (Query q)) h)) ->
  respects R (query q).
Proof.
  intros HR w v w' H. apply query_ret_inv in H as (h & _ & ->). apply HR.
Qed.

Lemma respects_cmd {hw} {P : Platform hw} (R : World hw -> World hw -> Prop)
    c :
  (forall w, R w (set_hardware (record w (Cmd c))
                    (sdk_cmd_exec c (hardware w)))) ->
  respects R (cmd c).
Proof. intros HR w v w' H. unfold cmd in H. inversion H. apply HR. Qed.

Lemma respects_update {hw} {P : Platform hw}
    (R : World hw -> World hw -> Prop) f :
  (forall w, R w (mkWorld (f (strip w)) (s_offset_pio0 w) (s_offset_pio1 w)
                    (heap w) (hardware w) (trace w))) ->
  respects R (update f).
Proof. intros HR w v w' H. unfold update in H. inversion H. apply HR. Qed.

Lemma respects_set_s_offset_pio0 {hw} {P : Platform hw}
    (R : World hw -> World hw -> Prop) v :
  (forall w, R w (mkWorld (strip w) v (s_offset_pio1 w)
                    (heap w) (hardware w) (trace w))) ->
  respects R (set_s_offset_pio0 v).
Proof.
  intros HR w u w' H. unfold set_s_offset_pio0 in H. inversion H. apply HR.
Qed.

Lemma respects_set_s_offset_pio1 {hw} {P : Platform hw}
    (R : World hw -> World hw -> Prop) v :
  (forall w, R w (mkWorld (strip w) (s_offset_pio0 w) v
                    (heap w) (hardware w) (trace w))) ->
  respects R (set_s_offset_pio1 v).
Proof.
  intros HR w u w' H. unfold set_s_offset_pio1 in H. inversion H. apply HR.
Qed.

Lemma respects_vector_new {hw} {P : Platform hw}
    (R : World hw -> World hw -> Prop) :
  (forall w m, R w (set_heap w m)) -> respects R vector_new.
Proof. intros HR w a w' H. unfold vector_new in H. inversion H. apply HR. Qed.

Lemma respects_vector_modify {hw} {P : Platform hw}
    (R : World hw -> World hw -> Prop) a f :
  (forall w m, R w (set_heap w m)) -> respects R (vector_modify a f).
Proof.
  intros HR w u w' H. unfold vector_modify in H.
  destruct (heap w !! a); inversion H. apply HR.
Qed.

Lemma respects_vector_delete {hw} {P : Platform hw}
    (R : World hw -> World hw -> Prop) a :
  (forall w m, R w (set_heap w m)) -> respects R (vector_delete a).
Proof.
  intros HR w u w' H. unfold vector_delete in H. inversion H. apply HR.
Qed.

(** Walks a method down to its primitive steps; [leaf] proves the relation
    for the state a primitive leaves. *)
Ltac walk refl trans leaf :=
  repeat first
    [ apply (respects_bind _ trans); [|intros ?]
    | apply (respects_ret _ refl)
    | apply (respects_this _ refl)
    | apply (respects_get_s_offset_pio0 _ refl)
    | apply (respects_get_s_offset_pio1 _ refl)
    | apply (respects_vector_get _ refl)
    | apply (respects_load _ refl)
    | apply (respects_for_each _ refl trans); intros ?
    | apply respects_spin; [exact refl|exact trans|intros ?; solve [leaf]]
    | apply respects_query; intros ? ?; solve [leaf]
    | apply respects_cmd; intros ?; solve [leaf]
    | apply respects_update; intros ?; solve [leaf]
    | apply respects_set_s_offset_pio0; intros ?; solve [leaf]
    | apply respects_set_s_offset_pio1; intros ?; solve [leaf]
    | apply respects_vector_new; intros ? ?; solve [leaf]
    | apply respects_vector_modify; intros ? ?; solve [leaf]
    | apply respects_vector_delete; intros ? ?; solve [leaf]
    | match goal with
      | |- respects _ (if ?c then _ else _) => destruct c
      end ].

(** ** The object's invariant through the hardware methods *)

Lemma keeps_inv_refl {hw} powf (w : World hw) : keeps_inv powf w w.
Proof. intros H. exact H. Qed.

Lemma keeps_inv_trans {hw} powf (w1 w2 w3 : World hw) :
  keeps_inv powf w1 w2 -> keeps_inv powf w2 w3 -> keeps_inv powf w1 w3.
Proof. unfold keeps_inv. auto. Qed.

Ltac keeps_inv_leaf :=
  unfold keeps_inv; world; try exact (fun H => H);
  intros [Hl Hp Hg]; split; fields; rewrite ?length_replicate;
  try assumption; apply Forall_replicate; repeat split; cbn; lia.

Lemma begin_keeps_inv {hw} {P : Platform hw} powf :
  respects (@keeps_inv hw powf) begin.
Proof.
  unfold begin.
  walk (@keeps_inv_refl hw powf) (@keeps_inv_trans hw powf) keeps_inv_leaf.
Qed.

Lemma wait_same_strip {hw} {P : Platform hw} fuel :
  respects (@same_strip hw) (wait fuel).
Proof. unfold wait. repeat same_strip_step. Qed.

Lemma end_keeps_inv {hw} {P : Platform hw} powf :
  respects (@keeps_inv hw powf) end_.
Proof.
  unfold end_, stop_dma.
  walk (@keeps_inv_refl hw powf) (@keeps_inv_trans hw powf) keeps_inv_leaf.
Qed.

(** ** X15 *)

(** X15. The hardware methods keep the invariant of the object: if it holds
    before [begin], [end], [wait], [show] or [showAsync], it holds in the
    state any of them returns. *)
Theorem methods_keep_inv {hw} (P : Platform hw)
    (powf : F32.float -> F32.float -> F32.float) (w : World hw) :
  Strip_inv powf (strip w) ->
  (forall b w', begin w = Ret (b, w') -> Strip_inv powf (strip w'))
  /\ (forall w', end_ w = Ret (tt, w') -> Strip_inv powf (strip w'))
  /\ (forall fuel w', wait fuel w = Ret (tt, w') -> Strip_inv powf (strip w'))
  /\ (forall fuel w', show fuel w = Ret (tt, w') -> Strip_inv powf (strip w'))
  /\ (forall w', showAsync w = Ret (tt, w') -> Strip_inv powf (strip w')).
Proof.
  intros Hinv.
  split; [intros b w' H; exact (begin_keeps_inv powf w b w' H Hinv)|].
  split; [intros w' H; exact (end_keeps_inv powf w tt w' H Hinv)|].
  split.
  { intros fuel w' H. rewrite (wait_same_strip fuel w tt w' H). exact Hinv. }
  split.
  - intros fuel w' H. rewrite (show_same_strip fuel w tt w' H). exact Hinv.
  - intros w' H. rewrite (showAsync_same_strip w tt w' H). exact Hinv.
Qed.

Lemma methods_keep_inv_witness :
  exists w', begin (Sim.boot Sim.strip_auto Sim.board) = Ret (true, w')
             /\ Strip_inv Sim.powf (strip w').
Proof.
  destruct (begin (Sim.boot Sim.strip_auto Sim.board)) as [[b w']| | |] eqn:E;
    try (vm_compute in E; discriminate).
  destruct (methods_keep_inv Sim.platform Sim.powf
              (Sim.boot Sim.strip_auto Sim.board)) as (Hb & _).
  - split.
    + vm_compute. reflexivity.
    + vm_compute. repeat constructor; discriminate.
    + vm_compute. reflexivity.
  - exists w'. split; [|exact (Hb b w' E)].
    vm_compute in E. inversion E. reflexivity.
Defined.

Lemma no_load_refl {hw} (w : World hw) : no_load w w.
Proof.
  repeat split. exists []. rewrite app_nil_r. split; constructor.
Qed.

Lemma no_load_trans {hw} (w1 w2 w3 : World hw) :
  no_load w1 w2 -> no_load w2 w3 -> no_load w1 w3.
Proof.
  intros (A1 & B1 & C1 & l1 & T1 & F1) (A2 & B2 & C2 & l2 & T2 & F2).
  split; [congruence|]. split; [congruence|]. split; [congruence|].
  exists (l1 ++ l2). split.
  - rewrite T2, T1, app_assoc. reflexivity.
  - apply Forall_app. split; assumption.
Qed.

Ltac no_load_leaf :=
  unfold no_load; world; fields;
  split; [reflexivity|]; split; [reflexivity|]; split; [reflexivity|];
  first [ exists []; rewrite app_nil_r; split; [reflexivity|constructor]
        | eexists; split; [reflexivity|]; repeat constructor ].

(** ** X16 *)

(** X16. [begin] loads the timing program at most once per PIO block.  It
    calls [pio_add_program] exactly when the static offset of its own
    block is negative, as its first SDK call, and stores the answer in
    that static whatever it is (a negative answer makes the next [begin]
    try again); otherwise it makes no such call and leaves the static
    alone.  The static of the other block is never written, and
    [_pio_offset] ends up as the static of the own block, cast to [uint]. *)
Theorem begin_loads_program_once {hw} (P : Platform hw) (w : World hw)
    (b : bool) (w' : World hw) :
  begin w = Ret (b, w') ->
  let p := _pio (strip w) in
  _pio_offset (strip w') = to_u32 (s_offset p w')
  /\ (forall q, q <> p -> s_offset q w' = s_offset q w)
  /\ (0 <= s_offset p w ->
      s_offset p w' = s_offset p w
      /\ exists l, trace w' = trace w ++ l
                   /\ Forall (fun c => is_add_program c = false) l)
  /\ (s_offset p w < 0 ->
      exists v h l,
        sdk_query_exec (pio_add_program p) (hardware w) = Returns v h
        /\ s_offset p w' = v
        /\ trace w' = trace w ++ Query (pio_add_program p) :: l
        /\ Forall (fun c => is_add_program c = false) l).
Proof.
  intros H p. subst p. unfold begin in H.
  rewrite (bind_ret this _ w (strip w) w eq_refl) in H.
  apply bind_ret_inv in H as (u & w1 & E1 & H).
  assert (Hrest : no_load w1 w').
  { match type of H with
    | ?m _ = Ret _ =>
        assert (Hr : respects (@no_load hw) m)
          by (walk (@no_load_refl hw) (@no_load_trans hw) no_load_leaf)
    end.
    exact (Hr w1 b w' H). }
  destruct Hrest as (R0 & R1 & Roff & l & Rt & Rl).
  clear H.
  destruct (decide (_pio (strip w) = pio0)) as [Hp|Hp].
  - (* block 0 *)
    rewrite Hp in *. cbn [s_offset].
    rewrite (bind_ret get_s_offset_pio0 _ w _ w eq_refl) in E1.
    destruct (s_offset_pio0 w <? 0) eqn:Hneg.
    + apply Z.ltb_lt in Hneg.
      apply bind_ret_inv in E1 as (u1 & wa & Eq & E1).
      apply bind_ret_inv in Eq as (v & wb & Eq & Eset).
      apply query_ret_inv in Eq as (h & Eq & ->).
      unfold set_s_offset_pio0 in Eset. inversion Eset. subst wa. clear Eset.
      rewrite (bind_ret get_s_offset_pio0 _ _ _ _ eq_refl) in E1.
      unfold update in E1. inversion E1. subst w1. clear E1.
      world. fields.
      split; [congruence|].
      split; [intros q Hq; destruct q; [contradiction|]; cbn [s_offset];
              exact R1|].
      split; [intros Hge; lia|].
      intros _. exists v, h, l. split; [exact Eq|]. split; [exact R0|].
      split; [|exact Rl]. rewrite Rt, <- app_assoc. reflexivity.
    + apply Z.ltb_ge in Hneg.
      rewrite (bind_ret (ret tt) _ w tt w eq_refl) in E1.
      rewrite (bind_ret get_s_offset_pio0 _ _ _ _ eq_refl) in E1.
      unfold update in E1. inversion E1. subst w1. clear E1.
      world. fields.
      split; [congruence|].
      split; [intros q Hq; destruct q; [contradiction|]; cbn [s_offset];
              exact R1|].
      split; [|intros Hlt; lia].
      intros _. split; [exact R0|]. exists l. split; [exact Rt|exact Rl].
  - (* block 1 *)
    assert (Hp1 : _pio (strip w) = pio1)
      by (destruct (_pio (strip w)); [contradiction|reflexivity]).
    rewrite Hp1 in *. cbn [s_offset].
    rewrite (bind_ret get_s_offset_pio1 _ w _ w eq_refl) in E1.
    destruct (s_offset_pio1 w <? 0) eqn:Hneg.
    + apply Z.ltb_lt in Hneg.
      apply bind_ret_inv in E1 as (u1 & wa & Eq & E1).
      apply bind_ret_inv in Eq as (v & wb & Eq & Eset).
      apply query_ret_inv in Eq as (h & Eq & ->).
      unfold set_s_offset_pio1 in Eset. inversion Eset. subst wa. clear Eset.
      rewrite (bind_ret get_s_offset_pio1 _ _ _ _ eq_refl) in E1.
      unfold update in E1. inversion E1. subst w1. clear E1.
      world. fields.
      split; [congruence|].
      split; [intros q Hq; destruct q; [|contradiction]; cbn [s_offset];
              exact R0|].
      split; [intros Hge; lia|].
      intros _. exists v, h, l. split; [exact Eq|]. split; [exact R1|].
      split; [|exact Rl]. rewrite Rt, <- app_assoc. reflexivity.
    + apply Z.ltb_ge in Hneg.
      rewrite (bind_ret (ret tt) _ w tt w eq_refl) in E1.
      rewrite (bind_ret get_s_offset_pio1 _ _ _ _ eq_refl) in E1.
      unfold update in E1. inversion E1. subst w1. clear E1.
      world. fields.
      split; [congruence|].
      split; [intros q Hq; destruct q; [|contradiction]; cbn [s_offset];
              exact R0|].
      split; [|intros Hlt; lia].
      intros _. split; [exact R1|]. exists l. split; [exact Rt|exact Rl].
Qed.

Lemma begin_loads_program_once_witness :
  exists w1 w2,
    begin (Sim.boot Sim.strip2 Sim.board) = Ret (true, w1)
    /\ s_offset pio0 w1 = 0
    /\ begin w1 = Ret (true, w2)
    /\ Forall (fun c => is_add_program c = false) (drop 4 (trace w2)).
Proof.
  destruct (begin (Sim.boot Sim.strip2 Sim.board)) as [[b1 w1]| | |] eqn:E1;
    try (vm_compute in E1; discriminate).
  destruct (begin w1) as [[b2 w2]| | |] eqn:E2;
    try (vm_compute in E1; inversion E1; subst; vm_compute in E2;
         discriminate).
  pose proof (begin_loads_program_once Sim.platform w1 b2 w2 E2)
    as (_ & _ & Hkeep & _).
  exists w1, w2.
  assert (Hb1 : b1 = true) by (vm_compute in E1; inversion E1; reflexivity).
  assert (Hoff : s_offset pio0 w1 = 0)
    by (vm_compute in E1; inversion E1; reflexivity).
  assert (Hpio : _pio (strip w1) = pio0)
    by (vm_compute in E1; inversion E1; reflexivity).
  assert (Htr : length (trace w1) = 4%nat)
    by (vm_compute in E1; inversion E1; reflexivity).
  assert (Hb2 : b2 = true).
  { vm_compute in E1. inversion E1. subst. vm_compute in E2.
    inversion E2. reflexivity. }
  subst b1 b2. split; [reflexivity|]. split; [exact Hoff|].
  split; [exact E2|].
  rewrite Hpio in Hkeep.
  destruct Hkeep as (_ & l & Ht & Hl); [rewrite Hoff; lia|].
  rewrite Ht, drop_app_length' by (symmetry; exact Htr). exact Hl.
Defined.

Lemma settings_kept_refl {hw} (w : World hw) : settings_kept w w.
Proof. repeat split. Qed.

Lemma settings_kept_trans {hw} (w1 w2 w3 : World hw) :
  settings_kept w1 w2 -> settings_kept w2 w3 -> settings_kept w1 w3.
Proof.
  unfold settings_kept, same_settings.
  intros (H1 & G1) (H2 & G2). split; [|congruence].
  repeat match goal with H : _ /\ _ |- _ => destruct H end.
  repeat split; congruence.
Qed.

Ltac settings_kept_leaf :=
  unfold settings_kept, same_settings; world; fields; repeat split.

Lemma sm_kept_refl {hw} (w : World hw) : sm_kept w w.
Proof. reflexivity. Qed.

Lemma sm_kept_trans {hw} (w1 w2 w3 : World hw) :
  sm_kept w1 w2 -> sm_kept w2 w3 -> sm_kept w1 w3.
Proof. unfold sm_kept. congruence. Qed.

Ltac sm_kept_leaf := unfold sm_kept; world; fields; reflexivity.

Lemma begin_settings_kept {hw} {P : Platform hw} :
  respects (@settings_kept hw) begin.
Proof.
  unfold begin.
  walk (@settings_kept_refl hw) (@settings_kept_trans hw) settings_kept_leaf.
Qed.

(** ** X17 *)

(** X17. What a successful [begin] leaves behind.  When [begin] returns
    [true] the object holds a state machine ([_sm >= 0], the one given to
    the constructor if there was one), every pixel is black, nothing was
    put on the wire, and the pin, count, wire format, bit rate, block,
    brightness, gamma flag and table, as well as the heap, are what they
    were. *)
Theorem begin_postcondition {hw} (P : Platform hw) (w w' : World hw) :
  begin w = Ret (true, w') ->
  0 <= _sm (strip w')
  /\ (0 <= _sm (strip w) -> _sm (strip w') = _sm (strip w))
  /\ _buf (strip w') = replicate (length (_buf (strip w))) (RGBW.mk 0 0 0 0)
  /\ (exists l, trace w' = trace w ++ l
                /\ Forall (fun c => transmits c = false) l)
  /\ same_settings (strip w) (strip w')
  /\ heap w' = heap w.
Proof.
  intros H.
  destruct (begin_success w w' H) as (Hbuf & Htr).
  destruct (begin_settings_kept w true w' H) as (Hset & Hheap).
  assert (Hsm : 0 <= _sm (strip w')
                /\ (0 <= _sm (strip w) -> _sm (strip w') = _sm (strip w))).
  { unfold begin in H.
    rewrite (bind_ret this _ w (strip w) w eq_refl) in H.
    apply bind_ret_inv in H as (u & w1 & E1 & H).
    apply bind_ret_inv in H as (claimed & w2 & Ec & H).
    assert (H1 : sm_kept w w1).
    { match type of E1 with
      | ?m _ = Ret _ =>
          assert (Hr : respects (@sm_kept hw) m)
            by (walk (@sm_kept_refl hw) (@sm_kept_trans hw) sm_kept_leaf)
      end.
      exact (Hr w u w1 E1). }
    destruct claimed; cbn [negb] in H; [|discriminate].
    assert (H2 : sm_kept w2 w').
    { match type of H with
      | ?m _ = Ret _ =>
          assert (Hr : respects (@sm_kept hw) m)
            by (walk (@sm_kept_refl hw) (@sm_kept_trans hw) sm_kept_leaf)
      end.
      exact (Hr w2 true w' H). }
    unfold sm_kept in H1, H2. rewrite H2.
    destruct (_sm (strip w) <? 0) eqn:Hneg.
    - apply Z.ltb_lt in Hneg.
      apply bind_ret_inv in Ec as (sm & wa & Eq & Ec).
      apply bind_ret_inv in Ec as (u' & wb & Eu & Ec).
      unfold update in Eu. inversion Eu. subst wb. clear Eu.
      unfold ret in Ec. inversion Ec as [[Hc Hw]]. subst w2. world. fields.
      split; [|lia].
      destruct (sm <? 0) eqn:Hs; [discriminate|]. apply Z.ltb_ge. exact Hs.
    - apply Z.ltb_ge in Hneg. unfold ret in Ec. inversion Ec. subst w2.
      rewrite H1. split; [exact Hneg|reflexivity]. }
  destruct Hsm as (Hsm1 & Hsm2).
  repeat split; try assumption; apply Hset.
Qed.

Lemma begin_postcondition_witness :
  exists w',
    begin (Sim.boot (setAll_RGB Sim.strip_auto (RGB.mk 9 9 9)) Sim.board)
    = Ret (true, w')
    /\ 0 <= _sm (strip w')
    /\ _buf (strip w') = [RGBW.mk 0 0 0 0; RGBW.mk 0 0 0 0].
Proof.
  destruct (begin (Sim.boot (setAll_RGB Sim.strip_auto (RGB.mk 9 9 9))
                     Sim.board)) as [[b w']| | |] eqn:E;
    try (vm_compute in E; discriminate).
  assert (Hb : b = true) by (vm_compute in E; inversion E; reflexivity).
  subst b.
  destruct (begin_postcondition Sim.platform _ w' E) as (Hsm & _ & Hbuf & _).
  exists w'. split; [reflexivity|]. split; [exact Hsm|].
  rewrite Hbuf. vm_compute. reflexivity.
Defined.

Lemma returns_ret {hw A} (Q : A -> Prop) (a : A) :
  Q a -> returns (hw:=hw) Q (ret a).
Proof. intros HQ w. exists a, w. split; [reflexivity|exact HQ]. Qed.

Lemma returns_bind {hw A B} (Q : B -> Prop) (m : M hw A) (k : A -> M hw B) :
  returns (fun _ => True) m -> (forall a, returns Q (k a)) ->
  returns Q (bind m k).
Proof.
  intros Hm Hk w. destruct (Hm w) as (a & w1 & E & _).
  destruct (Hk a w1) as (b & w2 & E2 & HQ).
  exists b, w2. split; [|exact HQ]. rewrite (bind_ret _ _ _ _ _ E). exact E2.
Qed.

Lemma returns_weaken {hw A} (Q : A -> Prop) (m : M hw A) :
  returns Q m -> returns (fun _ => True) m.
Proof.
  intros H w. destruct (H w) as (a & w' & E & _). exists a, w'. auto.
Qed.

Lemma returns_query {hw} {P : Platform hw} q :
  never_panics P q -> returns (fun _ => True) (query q).
Proof.
  intros Hq w. destruct (Hq (hardware w)) as (v & h & E).
  exists v. eexists. unfold query. rewrite E. split; [reflexivity|exact I].
Qed.

Lemma returns_bind_ret {hw A B} (Q : B -> Prop) (a : A) (k : A -> M hw B) :
  returns Q (k a) -> returns Q (bind (ret a) k).
Proof. intros H w. exact (H w). Qed.

Ltac returns_step :=
  first
    [ apply returns_bind_ret
    | apply returns_bind; [|intros ?]
    | apply returns_ret; solve [exact I | reflexivity]
    | apply returns_query; assumption
    | (intros ?; eexists; eexists; split; [reflexivity|exact I])
    | progress cbn [negb]
    | match goal with
      | |- returns _ (if ?c then _ else _) => destruct c
      end ].

(** ** X18 *)

(** X18. Only a panic stops [begin].  With a state machine given to the
    constructor, on a platform where [pio_add_program] and
    [dma_claim_unused_channel(false)] answer instead of panicking,
    [begin] returns [true] from every state: a program that could not be
    loaded and a DMA channel that could not be claimed are both passed
    over. *)
Theorem begin_succeeds_unless_panic {hw} (P : Platform hw) (w : World hw) :
  (forall p, never_panics P (pio_add_program p)) ->
  never_panics P (dma_claim_unused_channel false) ->
  0 <= _sm (strip w) ->
  exists w', begin w = Ret (true, w').
Proof.
  intros Hadd Hdma Hsm.
  assert (Hlt : (_sm (strip w) <? 0) = false) by (apply Z.ltb_ge; exact Hsm).
  assert (Hret : exists b w', begin w = Ret (b, w') /\ b = true).
  { unfold begin. rewrite (bind_ret this _ w (strip w) w eq_refl).
    rewrite Hlt.
    match goal with
    | |- exists b w', ?m w = Ret (b, w') /\ _ =>
        assert (Hr : returns (fun b => b = true) m)
    end.
    { pose proof (Hadd (_pio (strip w))) as Hadd'.
      repeat returns_step. }
    exact (Hr w). }
  destruct Hret as (b & w' & E & ->). exists w'. exact E.
Qed.

Lemma begin_succeeds_unless_panic_witness :
  exists w', begin (Sim.boot Sim.strip2 Sim.board_full) = Ret (true, w').
Proof.
  apply (begin_succeeds_unless_panic Sim.platform
           (Sim.boot Sim.strip2 Sim.board_full)).
  - intros p h. simpl. destruct (Sim.program_room h); eauto.
  - intros h. simpl. destruct (Sim.free_dma h); eauto.
  - vm_compute. discriminate.
Defined.
